(** * chat.common.util: the schema-driven record generator

  A shallow embedding of [src/chat/common/util.py] (classes [Interface]
  and [Model], function [model_from_proto]) over a small model of the
  Python object store, followed by the properties of the generator.

  The generator builds classes at run time and mutates them with
  [setattr]; record instances are mutated by their setters and handed
  back for chaining.  Classes and instances therefore live in an explicit
  heap and every operation is a state-passing computation that either
  returns a value or raises a Python exception. *)

From Stdlib Require Import ZArith.
From stdpp Require Import base option strings list gmap fin_maps.

Set Warnings "-register-all".

Local Open Scope string_scope.
Local Open Scope list_scope.

(** ** The Python fragment *)

Module Py.

(** Heap addresses of objects created at run time. *)
Abbreviation loc := nat.

(** Classes that exist before any call: builtins and the two classes of
    the module. *)
Inductive static_class :=
| SObject | SType | SNoneType | SBool | SInt | SStr | SBytes | SDict | SList
| SFunction | SMethod | SEnum | SEnumMeta | SModel | SInterface.

(** Function objects.  [impl_setter], [impl_getter] and [impl_init] are
    the closures synthesized by [Model.add_getters_setters]; the two
    accessors carry their [private_name] default argument. [ident_lambda]
    is [lambda _: _]; [module_fun] names an attribute of a static
    class. *)
Inductive pyfun :=
| impl_setter (private_name : string)
| impl_getter (private_name : string)
| impl_init
| ident_lambda
| module_fun (name : string).

(** Values.  A dict is an association list in insertion order, keys
    pairwise distinct; an [Enum] subclass is immutable and is carried as
    the value of its [__members__] mapping: key, then the member's
    [name] and [value]. *)
Inductive pyval :=
| VNone
| VBool (b : bool)
| VInt (z : Z)
| VStr (s : string)
| VDict (d : list (string * pyval))
| VList (l : list pyval)
| VClass (c : static_class)
| VEnumClass (qualname : string)
             (members : list (string * (string * pyval)))
| VFun (f : pyfun)
| VBound (f : pyfun) (self : loc)
| VRef (l : loc).

Abbreviation dict := (list (string * pyval)).

(** Objects of the heap: a class created by a [class] statement (its
    metaclass is [type], its one base is a static class) and an instance
    of such a class.  Each has its attribute dictionary. *)
Inductive object :=
| ClassObj (base : static_class) (ns : gmap string pyval)
| InstanceObj (cls : loc) (ns : gmap string pyval).

Abbreviation heap := (list object).

(** What [type(v)] evaluates to. *)
Inductive tyref :=
| TStatic (c : static_class)
| TUser (l : loc).

(** Exceptions.  Every error of the module is a [ValueError]; the
    message tells them apart. *)
Inductive message :=
| reserved_name (name : string)
| not_a_type (name : string) (value : pyval)
| cannot_omit (fname : string) (cls : pyval)
| not_interface_subclass (iface : pyval)
| no_fields_enum (iface : pyval)
| not_an_enum (fields_enum : pyval).

Inductive exn :=
| ValueError (m : message)
| TypeError (why : string)
| AttributeError (attr : string)
| KeyError (key : string)
| NotImplementedError.

(** A computation returns, raises, or leaves the modelled fragment
    ([Unsupported]: an attribute annotated [Dict[str, type]] holding
    something else, a call through a function the module never calls
    that way). *)
Inductive outcome (A : Type) :=
| Return (a : A)
| Raise (e : exn)
| Unsupported.
Global Arguments Return {A} a.
Global Arguments Raise {A} e.
Global Arguments Unsupported {A}.

Definition M (A : Type) : Type := heap → outcome A * heap.

Definition ret {A} (a : A) : M A := λ h, (Return a, h).
Definition raise {A} (e : exn) : M A := λ h, (Raise e, h).
Definition unsupported {A} : M A := λ h, (Unsupported, h).
Definition bind {A B} (m : M A) (k : A → M B) : M B := λ h,
  match m h with
  | (Return a, h') => k a h'
  | (Raise e, h') => (Raise e, h')
  | (Unsupported, h') => (Unsupported, h')
  end.

Declare Scope py_scope.
Delimit Scope py_scope with py.
Notation "x <- c ;; k" := (bind c (λ x, k))
  (at level 100, c at next level, right associativity) : py_scope.
Notation "c ;;; k" := (bind c (λ _, k))
  (at level 100, right associativity) : py_scope.
Local Open Scope py_scope.

(** [for x in l: body] *)
Fixpoint for_each {A} (l : list A) (body : A → M unit) : M unit :=
  match l with
  | [] => ret ()
  | x :: l' => body x ;;; for_each l' body
  end.

(** *** Dicts *)

Definition keys (d : dict) : list string := d.*1.
Definition values (d : dict) : list pyval := d.*2.

(** [d[k]], [None] standing for [KeyError]. *)
Fixpoint dict_get (k : string) (d : dict) : option pyval :=
  match d with
  | [] => None
  | (k', v) :: d' => if decide (k = k') then Some v else dict_get k d'
  end.

(** [d[k]] as an expression *)
Definition subscript (d : dict) (k : string) : M pyval :=
  match dict_get k d with
  | Some v => ret v
  | None => raise (KeyError k)
  end.

(** [k in d] *)
Definition dict_mem (k : string) (d : dict) : bool :=
  bool_decide (k ∈ keys d).

(** [d[k] = v]: an existing key keeps its position. *)
Fixpoint dict_set (d : dict) (k : string) (v : pyval) : dict :=
  match d with
  | [] => [(k, v)]
  | (k', v') :: d' =>
      if decide (k = k') then (k, v) :: d' else (k', v') :: dict_set d' k v
  end.

(** [dict(pairs)] *)
Definition dict_of_pairs (pairs : list (string * pyval)) : dict :=
  foldl (λ d kv, dict_set d kv.1 kv.2) [] pairs.

(** *** Strings *)

(** [s[:n]] and [s[n:]] *)
Fixpoint slice_to (n : nat) (s : string) : string :=
  match n, s with
  | S n', String c s' => String c (slice_to n' s')
  | _, _ => ""
  end.

Fixpoint slice_from (n : nat) (s : string) : string :=
  match n, s with
  | S n', String _ s' => slice_from n' s'
  | _, _ => s
  end.

(** *** Attributes *)

(** Names that [dir(object)] lists. *)
Definition object_attrs : list string :=
  [ "__class__"; "__delattr__"; "__dir__"; "__doc__"; "__eq__";
    "__format__"; "__ge__"; "__getattribute__"; "__getstate__"; "__gt__";
    "__hash__"; "__init__"; "__init_subclass__"; "__le__"; "__lt__";
    "__ne__"; "__new__"; "__reduce__"; "__reduce_ex__"; "__repr__";
    "__setattr__"; "__sizeof__"; "__str__"; "__subclasshook__" ].

(** What the dictionary of a static class holds under a name, as far as
    attribute lookup tells such entries apart: a plain value, a function,
    a [classmethod], a [staticmethod], or an entry that the fragment
    lists and does not open up (the slots [__dict__] and [__weakref__],
    annotations, docstrings, the methods of [object] other than
    [__init__]). *)
Inductive static_attr :=
| plain_attr (v : pyval)
| function_attr
| classmethod_attr
| staticmethod_attr
| opaque_attr.

Definition object_ns : list (string * static_attr) :=
  (λ n, (n, if decide (n = "__init__") then function_attr else opaque_attr))
    <$> object_attrs.

(** [Model.__dict__] and [Interface.__dict__].  [Model._fields] is the
    empty dict, [Interface._fields_enum] is [None]. *)
Definition Model_reserved_fields : list string :=
  ["_fields"; "_reserved_fields"].

Definition Model_ns : list (string * static_attr) :=
  [ ("__module__", plain_attr (VStr "chat.common.util"));
    ("__annotations__", opaque_attr);
    ("__doc__", opaque_attr);
    ("_fields", plain_attr (VDict []));
    ("_reserved_fields", plain_attr (VList (VStr <$> Model_reserved_fields)));
    ("serialize", function_attr);
    ("deserialize", classmethod_attr);
    ("model_with_fields", staticmethod_attr);
    ("add_getters_setters", classmethod_attr);
    ("clean_getters_setters", classmethod_attr);
    ("add_fields", classmethod_attr);
    ("omit_fields", classmethod_attr);
    ("__dict__", opaque_attr);
    ("__weakref__", opaque_attr) ].

Definition Interface_ns : list (string * static_attr) :=
  [ ("__module__", plain_attr (VStr "chat.common.util"));
    ("__annotations__", opaque_attr);
    ("__doc__", opaque_attr);
    ("_fields_enum", plain_attr VNone);
    ("__dict__", opaque_attr);
    ("__weakref__", opaque_attr) ].

(** The attributes a static class offers, its own before those of
    [object]; the builtin value classes are not opened up. *)
Definition static_ns (c : static_class)
    : option (list (string * static_attr)) :=
  match c with
  | SObject => Some object_ns
  | SModel => Some (Model_ns ++ object_ns)
  | SInterface => Some (Interface_ns ++ object_ns)
  | _ => None
  end.

Fixpoint static_get (name : string) (sns : list (string * static_attr))
    : option static_attr :=
  match sns with
  | [] => None
  | (n, a) :: sns' => if decide (n = name) then Some a else static_get name sns'
  end.

(** What reading an entry of a static class gives, through the class
    [owner] (a class of the heap, if the lookup started from one or from
    one of its instances) and through the instance [inst], if any: a
    function comes back bound to the instance, a [classmethod] bound to
    the class, a [staticmethod] as the plain function.  [None] is outside
    the fragment. *)
Definition descr_get (name : string) (a : static_attr)
    (owner inst : option loc) : option pyval :=
  match a with
  | plain_attr v => Some v
  | function_attr =>
      Some (match inst with
            | Some i => VBound (module_fun name) i
            | None => VFun (module_fun name)
            end)
  | classmethod_attr => (λ k, VBound (module_fun name) k) <$> owner
  | staticmethod_attr => Some (VFun (module_fun name))
  | opaque_attr => None
  end.

(** Lookup along the static part of the bases.  The outer [option] is
    [None] outside the fragment, the inner one when the attribute does
    not exist. *)
Definition static_attr_of (c : static_class) (name : string)
    (owner inst : option loc) : option (option pyval) :=
  match static_ns c with
  | Some sns =>
      match static_get name sns with
      | Some a => Some <$> descr_get name a owner inst
      | None => Some None
      end
  | None => None
  end.

(** Names that a class answers through its metaclass and not, or not
    only, through its own dictionary and those of its bases: the names
    with two leading underscores ([__dict__], [__annotations__],
    [__class__], [__name__], [__mro__], ...) and [mro].  They are outside
    the fragment, save [__init__], which [type] leaves to the class. *)
Definition type_level (name : string) : bool :=
  (bool_decide (slice_to 2 name = "__")
   && negb (bool_decide (name = "__init__")))
  || bool_decide (name = "mro").


(** Attribute lookup on the class at [k]: its own dictionary, then its
    base. *)
Definition class_attr (k : loc) (base : static_class)
    (ns : gmap string pyval) (name : string) : option (option pyval) :=
  if type_level name then None
  else
    match ns !! name with
    | Some v => Some (Some v)
    | None => static_attr_of base name (Some k) None
    end.

(** A function found in the dictionary of the class of an instance comes
    back bound. *)
Definition bind_to (self : loc) (v : pyval) : pyval :=
  match v with
  | VFun f => VBound f self
  | _ => v
  end.

(** Attribute lookup on the instance at [l], of the class at [k]: the
    slots, then its own dictionary, then the class and its base. *)
Definition instance_attr (h : heap) (l k : loc) (ns : gmap string pyval)
    (name : string) : option (option pyval) :=
  if decide (name = "__class__") then Some (Some (VRef k))
  else if decide (name = "__dict__") then None
  else if decide (name = "__weakref__") then Some (Some VNone)
  else
    match ns !! name with
    | Some v => Some (Some v)
    | None =>
        match h !! k with
        | Some (ClassObj base kns) =>
            match kns !! name with
            | Some v => Some (Some (bind_to l v))
            | None => static_attr_of base name (Some k) (Some l)
            end
        | _ => None
        end
    end.

Definition lookup_attr (h : heap) (o : pyval) (name : string)
    : option (option pyval) :=
  match o with
  | VClass c =>
      if type_level name then None else static_attr_of c name None None
  | VRef l =>
      match h !! l with
      | Some (ClassObj base ns) => class_attr l base ns name
      | Some (InstanceObj k ns) => instance_attr h l k ns name
      | None => None
      end
  | _ => None
  end.

(** [getattr(o, name)], [getattr(o, name, default)], [hasattr(o, name)] *)
Definition getattr (o : pyval) (name : string) : M pyval := λ h,
  match lookup_attr h o name with
  | Some (Some v) => (Return v, h)
  | Some None => (Raise (AttributeError name), h)
  | None => (Unsupported, h)
  end.

Definition getattr_default (o : pyval) (name : string) (default : pyval)
    : M pyval := λ h,
  match lookup_attr h o name with
  | Some (Some v) => (Return v, h)
  | Some None => (Return default, h)
  | None => (Unsupported, h)
  end.

Definition hasattr (o : pyval) (name : string) : M bool := λ h,
  match lookup_attr h o name with
  | Some (Some _) => (Return true, h)
  | Some None => (Return false, h)
  | None => (Unsupported, h)
  end.

(** Whether a value is a class ([None] for a reference to nothing), and
    whether it is a dict. *)
Definition is_class (h : heap) (v : pyval) : option bool :=
  match v with
  | VClass _ | VEnumClass _ _ => Some true
  | VRef l =>
      match h !! l with
      | Some (ClassObj _ _) => Some true
      | Some (InstanceObj _ _) => Some false
      | None => None
      end
  | _ => Some false
  end.

Definition is_dict (v : pyval) : bool :=
  match v with
  | VDict _ => true
  | _ => false
  end.

(** [setattr(o, name, v)]: the module assigns to objects of the heap
    only.  A class stores the value in its dictionary, the names that its
    metaclass serves being outside the fragment.  An instance stores the
    value in its dictionary too, except under the names of its slots:
    [__class__] takes a class only and [__dict__] a dict only, anything
    else is a [TypeError]; [__weakref__] cannot be assigned.  Assigning
    to [__class__] the class that the instance has already changes
    nothing; assigning another class re-types the instance, and
    assigning a dict to [__dict__] makes the instance share that dict,
    which are both outside the fragment. *)
Definition setattr (o : pyval) (name : string) (v : pyval) : M unit := λ h,
  match o with
  | VRef l =>
      match h !! l with
      | Some (ClassObj base ns) =>
          if type_level name then (Unsupported, h)
          else (Return (), <[l := ClassObj base (<[name := v]> ns)]> h)
      | Some (InstanceObj k ns) =>
          if decide (name = "__class__") then
            match is_class h v with
            | Some true =>
                match v with
                | VRef k' =>
                    if decide (k' = k) then (Return (), h) else (Unsupported, h)
                | _ => (Unsupported, h)
                end
            | Some false =>
                (Raise (TypeError "__class__ must be set to a class"), h)
            | None => (Unsupported, h)
            end
          else if decide (name = "__dict__") then
            if is_dict v then (Unsupported, h)
            else (Raise (TypeError "__dict__ must be set to a dictionary"), h)
          else if decide (name = "__weakref__") then
            (Raise (AttributeError "__weakref__"), h)
          else (Return (), <[l := InstanceObj k (<[name := v]> ns)]> h)
      | None => (Unsupported, h)
      end
  | _ => (Unsupported, h)
  end.

(** [dir(o)] for a class of the heap: the names of the class and of its
    bases, each once.  Python sorts them; the one loop over [dir] sets
    attributes by name and does not depend on the order. *)
Definition dir (o : pyval) : M (list string) := λ h,
  match o with
  | VRef l =>
      match h !! l with
      | Some (ClassObj base ns) =>
          match static_ns base with
          | Some sns => (Return (remove_dups ((map_to_list ns).*1 ++ sns.*1)), h)
          | None => (Unsupported, h)
          end
      | _ => (Unsupported, h)
      end
  | _ => (Unsupported, h)
  end.

(** The [class] statement and [object.__new__]: a fresh object at the next
    address. *)
Definition new_class (base : static_class) (ns : gmap string pyval)
    : M loc := λ h, (Return (length h), h ++ [ClassObj base ns]).

Definition new_instance (cls : loc) : M loc := λ h,
  (Return (length h), h ++ [InstanceObj cls ∅]).

(** [v.items()] and [k in v] for a value annotated as a dict. *)
Definition items_of (v : pyval) : M (list (string * pyval)) :=
  match v with
  | VDict d => ret d
  | _ => unsupported
  end.

Definition contains (v : pyval) (k : string) : M bool :=
  match v with
  | VDict d => ret (dict_mem k d)
  | _ => unsupported
  end.

(** [type(v)].  The metaclass of [Enum] and of its subclasses is
    [EnumMeta], every other class here has metaclass [type]. *)
Definition metaclass_of (c : static_class) : static_class :=
  match c with
  | SEnum => SEnumMeta
  | _ => SType
  end.

Definition type_of (v : pyval) : M tyref := λ h,
  match v with
  | VNone => (Return (TStatic SNoneType), h)
  | VBool _ => (Return (TStatic SBool), h)
  | VInt _ => (Return (TStatic SInt), h)
  | VStr _ => (Return (TStatic SStr), h)
  | VDict _ => (Return (TStatic SDict), h)
  | VList _ => (Return (TStatic SList), h)
  | VClass c => (Return (TStatic (metaclass_of c)), h)
  | VEnumClass _ _ => (Return (TStatic SEnumMeta), h)
  | VFun _ => (Return (TStatic SFunction), h)
  | VBound _ _ => (Return (TStatic SMethod), h)
  | VRef l =>
      match h !! l with
      | Some (ClassObj _ _) => (Return (TStatic SType), h)
      | Some (InstanceObj k _) => (Return (TUser k), h)
      | None => (Unsupported, h)
      end
  end.

Global Instance static_class_eq_dec : EqDecision static_class.
Proof. solve_decision. Defined.

Global Instance tyref_eq_dec : EqDecision tyref.
Proof. solve_decision. Defined.

(** [issubclass(v, c)] for a static class [c]. *)
Definition static_subclass (a b : static_class) : bool :=
  bool_decide (a = b) || bool_decide (b = SObject)
  || (bool_decide (a = SBool) && bool_decide (b = SInt))
  || (bool_decide (a = SEnumMeta) && bool_decide (b = SType)).

Definition issubclass (v : pyval) (c : static_class) : M bool := λ h,
  match v with
  | VClass a => (Return (static_subclass a c), h)
  | VEnumClass _ _ => (Return (static_subclass SEnum c), h)
  | VRef l =>
      match h !! l with
      | Some (ClassObj base _) => (Return (static_subclass base c), h)
      | Some (InstanceObj _ _) =>
          (Raise (TypeError "issubclass() arg 1 must be a class"), h)
      | None => (Unsupported, h)
      end
  | _ => (Raise (TypeError "issubclass() arg 1 must be a class"), h)
  end.

End Py.

(** ** class Model *)

Module Model.
Import Py.
Local Open Scope py_scope.

(** [Model._reserved_fields] *)
Definition _reserved_fields : list string := Model_reserved_fields.

(** The accessors defined inside [add_getters_setters]:
<<
    def __impl_setter__(self, val, private_name=private_name):
        setattr(self, private_name, val)
        return self
    def __impl_getter__(self, private_name=private_name):
        return getattr(self, private_name, None)
>> *)
Definition __impl_setter__ (self val : pyval) (private_name : string)
    : M pyval :=
  setattr self private_name val ;;;
  ret self.

Definition __impl_getter__ (self : pyval) (private_name : string)
    : M pyval :=
  getattr_default self private_name VNone.

(** Applying a function object to positional arguments.  The third
    parameter of an accessor may be given explicitly and has to be a
    string for [setattr] and [getattr]. *)
Definition apply_fun (f : pyfun) (args : list pyval) : M pyval :=
  match f, args with
  | impl_setter private_name, [self; val] =>
      __impl_setter__ self val private_name
  | impl_setter _, [self; val; VStr private_name] =>
      __impl_setter__ self val private_name
  | impl_getter private_name, [self] => __impl_getter__ self private_name
  | impl_getter _, [self; VStr private_name] =>
      __impl_getter__ self private_name
  | ident_lambda, [x] => ret x
  | impl_init, _ | module_fun _, _ => unsupported
  | _, _ => raise (TypeError "arguments do not match the parameters")
  end.

Definition call_positional (callee : pyval) (args : list pyval) : M pyval :=
  match callee with
  | VFun f => apply_fun f args
  | VBound f self => apply_fun f (VRef self :: args)
  | VNone | VBool _ | VInt _ | VStr _ | VDict _ | VList _ =>
      raise (TypeError "object is not callable")
  | VClass _ | VEnumClass _ _ | VRef _ => unsupported
  end.

(** The constructor defined inside [add_getters_setters]; [kwargs] is the
    dict that the call binds to [**kwargs]:
<<
    def __impl_init__(self, **kwargs):
        for name in self._fields:
            if name in kwargs:
                getattr(self, f'set_{name!s}', lambda _: _)(kwargs[name])
            else:
                setattr(self, f'_{name!s}', None)
>> *)
Definition __impl_init__ (self : pyval) (kwargs : dict) : M unit :=
  fields <- getattr self "_fields" ;;
  items <- items_of fields ;;
  for_each (keys items) (λ name,
    if dict_mem name kwargs then
      setter <- getattr_default self ("set_" +:+ name) (VFun ident_lambda) ;;
      val <- subscript kwargs name ;;
      call_positional setter [val] ;;;
      ret ()
    else setattr self ("_" +:+ name) VNone).

(** Binding the keyword arguments of a call to a function whose
    parameters [params] the call has filled already and which collects
    the other keywords in a dict: a keyword named like one of [params]
    is a [TypeError], raised before the body runs. *)
Definition bind_keywords (params : list string) (kwargs : dict) : M unit :=
  if decide (Exists (λ key, key ∈ params) (keys kwargs))
  then raise (TypeError "got multiple values for argument")
  else ret ().

(** A call with keyword arguments. *)
Definition call (callee : pyval) (args : list pyval) (kwargs : dict)
    : M pyval :=
  match callee, args with
  | VFun impl_init, [self] =>
      bind_keywords ["self"] kwargs ;;;
      __impl_init__ self kwargs ;;; ret VNone
  | VBound impl_init self, [] =>
      bind_keywords ["self"] kwargs ;;;
      __impl_init__ (VRef self) kwargs ;;; ret VNone
  | _, _ =>
      match kwargs with
      | [] => call_positional callee args
      | _ :: _ => unsupported
      end
  end.

(** [o.name(args)] *)
Definition call_method (o : pyval) (name : string) (args : list pyval)
    : M pyval :=
  method <- getattr o name ;;
  call method args [].

(** Calling a class with keyword arguments: [object.__new__], then the
    [__init__] of the class, called on the new instance with the keyword
    arguments of the call; a class that inherits [object.__init__] takes
    no arguments. *)
Definition construct (cls : pyval) (kwargs : dict) : M pyval :=
  init <- getattr cls "__init__" ;;
  match cls, init with
  | VRef k, VFun impl_init =>
      self <- new_instance k ;;
      bind_keywords ["self"] kwargs ;;;
      __impl_init__ (VRef self) kwargs ;;;
      ret (VRef self)
  | VRef k, VFun (module_fun _) =>
      match kwargs with
      | [] => self <- new_instance k ;; ret (VRef self)
      | _ :: _ => raise (TypeError "takes no arguments")
      end
  | _, _ => unsupported
  end.

(** [Model.clean_getters_setters] *)
Definition clean_getters_setters (model : pyval) : M pyval :=
  names <- dir model ;;
  for_each names (λ attr_name,
    if decide (slice_to 4 attr_name = "get_") then
      fields <- getattr model "_fields" ;;
      declared <- contains fields (slice_from 4 attr_name) ;;
      if declared then ret () else setattr model attr_name VNone
    else if decide (slice_to 4 attr_name = "set_") then
      fields <- getattr model "_fields" ;;
      declared <- contains fields (slice_from 4 attr_name) ;;
      if declared then ret () else setattr model attr_name VNone
    else ret ()) ;;;
  ret model.

(** [Model.add_getters_setters] *)
Definition add_getters_setters (model : pyval) : M pyval :=
  fields <- getattr model "_fields" ;;
  items <- items_of fields ;;
  for_each items (λ item,
    let name := item.1 in
    let value := item.2 in
    t <- type_of value ;;
    if decide (t = TStatic SType) then
      let private_name := "_" +:+ name in
      setattr model ("set_" +:+ name) (VFun (impl_setter private_name)) ;;;
      setattr model ("get_" +:+ name) (VFun (impl_getter private_name))
    else raise (ValueError (not_a_type name value))) ;;;
  setattr model "__init__" (VFun impl_init) ;;;
  clean_getters_setters model.

(** The dictionary of [class __impl_model__(Model): _fields = {...}]. *)
Definition impl_model_ns (fields : dict) : gmap string pyval :=
  <["_fields" := VDict fields]>
    (<["__module__" := VStr "chat.common.util"]>
       (<["__doc__" := VNone]> ∅)).

(** [Model.model_with_fields], called with positional arguments [args]
    and keyword arguments [fields].  The static method declares keyword
    parameters only, so a positional argument cannot be bound. *)
Definition model_with_fields (args : list pyval) (fields : dict) : M pyval :=
  match args with
  | [] =>
      for_each (keys fields) (λ name,
        if decide (name ∈ _reserved_fields)
        then raise (ValueError (reserved_name name))
        else ret ()) ;;;
      impl_model <- new_class SModel (impl_model_ns fields) ;;
      add_getters_setters (VRef impl_model)
  | _ :: _ =>
      raise (TypeError "model_with_fields() takes 0 positional arguments")
  end.

(** The body of [Model.add_fields], with [cls] the class the method is
    bound to and [new_fields] the dict of its keyword arguments: the
    dict built from [list(cls._fields.items()) + list(new_fields.items())]
    is unpacked into the keyword arguments of [Model.model_with_fields],
    and [add_getters_setters] is called on the result. *)
Definition add_fields (cls : pyval) (new_fields : dict) : M pyval :=
  fields <- getattr cls "_fields" ;;
  items <- items_of fields ;;
  model <- model_with_fields [] (dict_of_pairs (items ++ new_fields)) ;;
  add_getters_setters model.

(** The body of [Model.omit_fields], with [cls] the class the method is
    bound to and [rm_fields] the dict of its keyword arguments:
<<
    for fname in rm_fields:
        if fname not in cls._fields:
            raise ValueError(...)
    return (Model.model_with_fields({n: t
                                     for n, t in cls._fields.items()
                                     if n not in rm_fields})
            .add_getters_setters())
>> *)
Definition omit_fields (cls : pyval) (rm_fields : dict) : M pyval :=
  for_each (keys rm_fields) (λ fname,
    fields <- getattr cls "_fields" ;;
    declared <- contains fields fname ;;
    if declared then ret ()
    else raise (ValueError (cannot_omit fname cls))) ;;;
  fields <- getattr cls "_fields" ;;
  items <- items_of fields ;;
  model <- model_with_fields
             [VDict (filter (λ nt, nt.1 ∉ keys rm_fields) items)] [] ;;
  add_getters_setters model.


Definition call_omit_fields (K : pyval) (rm_fields : dict) : M pyval :=
  bind_keywords ["cls"] rm_fields ;;;
  omit_fields K rm_fields.

End Model.

(** ** model_from_proto *)

Module Util.
Import Py.
Local Open Scope py_scope.

(** [iface._fields_enum.__members__.items()] *)
Definition members_of (v : pyval)
    : M (list (string * (string * pyval))) :=
  match v with
  | VEnumClass _ members => ret members
  | VClass SEnum => ret []
  | _ => unsupported
  end.

Definition model_from_proto (iface : pyval) : M pyval :=
  is_iface <- issubclass iface SInterface ;;
  if negb is_iface then raise (ValueError (not_interface_subclass iface))
  else
  has_enum <- hasattr iface "_fields_enum" ;;
  if negb has_enum then raise (ValueError (no_fields_enum iface))
  else
  fields_enum <- getattr iface "_fields_enum" ;;
  t <- type_of fields_enum ;;
  let not_enum :=
    bool_decide (t ≠ TStatic SEnum) && bool_decide (t ≠ TStatic SEnumMeta) in
  not_enum <-
    (if negb not_enum then
       is_enum <- issubclass fields_enum SEnum ;;
       if negb is_enum then
         is_meta <- issubclass fields_enum SEnumMeta ;;
         ret (negb is_meta)
       else ret false
     else ret true) ;;
  if (not_enum : bool) then raise (ValueError (not_an_enum fields_enum))
  else
  model_from_fields <- getattr (VClass SModel) "model_from_fields" ;;
  members <- members_of fields_enum ;;
  Model.call model_from_fields []
    (dict_of_pairs ((λ member, (member.2.1, member.2.2)) <$> members)).

End Util.

(** ** What compilation builds *)

Module Kind.
Import Py Model.

(** [type(v) is type], evaluated in heap [h]. *)
Definition is_type (h : heap) (v : pyval) : bool :=
  match (type_of v h).1 with
  | Return t => bool_decide (t = TStatic SType)
  | _ => false
  end.

(** A reference points to an object of the heap. *)
Definition valid_value (h : heap) (v : pyval) : Prop :=
  match v with
  | VRef l => (l < length h)%nat
  | _ => True
  end.

(** The two [setattr] of one round of the loop of [add_getters_setters],
    and the class dictionary once the loop and the assignment of
    [__init__] are through. *)
Definition add_accessors (ns : gmap string pyval) (item : string * pyval)
    : gmap string pyval :=
  <["get_" +:+ item.1 := VFun (impl_getter ("_" +:+ item.1))]>
    (<["set_" +:+ item.1 := VFun (impl_setter ("_" +:+ item.1))]> ns).

Definition accessors_ns (items : dict) (ns : gmap string pyval)
    : gmap string pyval :=
  foldl add_accessors ns items.

Definition kind_ns (fields : dict) : gmap string pyval :=
  <["__init__" := VFun impl_init]>
    (accessors_ns fields (impl_model_ns fields)).




(** An accessor name, [get_...] or [set_...], is stale for a schema when
    what follows the prefix is not one of its fields. *)
Definition accessor_prefix (attr_name : string) : bool :=
  bool_decide (slice_to 4 attr_name = "get_")
  || bool_decide (slice_to 4 attr_name = "set_").

Definition stale (fields : dict) (attr_name : string) : bool :=
  accessor_prefix attr_name && negb (dict_mem (slice_from 4 attr_name) fields).

(** Every earlier object is where it was. *)
Definition extends (h h' : heap) : Prop :=
  ∀ l o, h !! l = Some o → h' !! l = Some o.

(** Nothing but the object at [m] differs, and nothing was freed. *)
Definition only_at (m : loc) (h h' : heap) : Prop :=
  (length h ≤ length h')%nat ∧
  ∀ l, l ≠ m → (l < length h)%nat → h' !! l = h !! l.

(** A computation keeps a relation between the heap it starts from and the
    heap it ends with, whatever its outcome; and it returns, when it does,
    a value that satisfies [P]. *)
Definition keeps (R : heap → heap → Prop) {A} (c : M A) : Prop :=
  ∀ h, R h (c h).2.

Definition returns_only {A} (P : A → Prop) (c : M A) : Prop :=
  ∀ h a, (c h).1 = Return a → P a.

(** Concrete inputs: the schema of the chat accounts, and the heap that
    holds its kind and nothing else. *)
Definition account_schema : dict :=
  [("username", VClass SStr); ("logged_in", VClass SBool)].

Definition account_heap : heap :=
  (model_with_fields [] account_schema []).2.

End Kind.

(** * chat.common.client.events: the report of delivered messages

    The branch of [main] for [DELIVER_UNDELIVERED_MESSAGES] groups the
    messages of the response by sender, formats the groups and prints the
    text between two newlines.  A message is carried as the pair of what
    its getters [get_sender_username] and [get_message] return;
    [str_sender] and [str_text] are what an f-string makes of the two, the
    identity on [str]. *)

Module Events.

(** The character that ends the lines of the f-strings. *)
Definition newline : string :=
  String (Ascii.Ascii false true false true false false false false) "".

(** [s[:-1]] *)
Fixpoint drop_last (s : string) : string :=
  match s with
  | "" => ""
  | String c "" => ""
  | String c s' => String c (drop_last s')
  end.

Section deliver.
Context {Sender Text : Type} `{!EqDecision Sender}.
Variable str_sender : Sender → string.
Variable str_text : Text → string.

(** [grouped_messages.get(sender)] *)
Fixpoint grouped_get (sender : Sender) (grouped : list (Sender * list Text))
    : option (list Text) :=
  match grouped with
  | [] => None
  | (s, texts) :: grouped' =>
      if decide (sender = s) then Some texts else grouped_get sender grouped'
  end.

(** [grouped_messages[sender].append(text)], for a [sender] that is a key
    of the dict. *)
Fixpoint append_message (grouped : list (Sender * list Text))
    (sender : Sender) (text : Text) : list (Sender * list Text) :=
  match grouped with
  | [] => []
  | (s, texts) :: grouped' =>
      if decide (sender = s) then (s, texts ++ [text]) :: grouped'
      else (s, texts) :: append_message grouped' sender text
  end.

(**
<<
    grouped_messages = {}
    for message in messages:
        sender = message.get_sender_username()
        if sender in grouped_messages:
            grouped_messages[sender].append(message.get_message())
        else:
            grouped_messages[sender] = [message.get_message()]
>> *)
Definition group_messages (messages : list (Sender * Text))
    : list (Sender * list Text) :=
  foldl (λ grouped_messages message,
           let sender := message.1 in
           if decide (sender ∈ grouped_messages.*1)
           then append_message grouped_messages sender message.2
           else grouped_messages ++ [(sender, [message.2])])
        [] messages.

(**
<<
    formatted_messages = ""
    for sender, messages in grouped_messages.items():
        formatted_messages += f"> {sender}\n"
        for message in messages:
            formatted_messages += f"{message}\n"
>> *)
Definition format_grouped (grouped_messages : list (Sender * list Text))
    : string :=
  foldl (λ formatted_messages entry,
           foldl (λ formatted_messages message,
                    formatted_messages +:+ str_text message +:+ newline)
                 (formatted_messages +:+ "> " +:+ str_sender entry.1 +:+ newline)
                 entry.2)
        "" grouped_messages.

(** The text between the two newlines of the [print]: the formatted groups
    without their last character. *)
Definition format_messages (messages : list (Sender * Text)) : string :=
  drop_last (format_grouped (group_messages messages)).

End deliver.

End Events.

(** * Properties *)

Import Py Model Util Kind.
Local Open Scope py_scope.

(** ** Strings and dicts *)

Lemma app_String c s t : String c s +:+ t = String c (s +:+ t).
Proof. reflexivity. Qed.

Lemma app_EmptyString t : "" +:+ t = t.
Proof. reflexivity. Qed.

(** Push a literal prefix of an f-string through the concatenation. *)
Ltac fstring := rewrite ?app_String, ?app_EmptyString in *.

Lemma set_inj a b : "set_" +:+ a = "set_" +:+ b → a = b.
Proof. fstring. congruence. Qed.

Lemma get_inj a b : "get_" +:+ a = "get_" +:+ b → a = b.
Proof. fstring. congruence. Qed.


Lemma set_not_get a b : "set_" +:+ a ≠ "get_" +:+ b.
Proof. fstring. congruence. Qed.

Lemma set_not_private a b : "set_" +:+ a ≠ "_" +:+ b.
Proof. fstring. congruence. Qed.


Lemma slice_get a : slice_to 4 ("get_" +:+ a) = "get_" ∧ slice_from 4 ("get_" +:+ a) = a.
Proof. done. Qed.

Lemma slice_set a : slice_to 4 ("set_" +:+ a) = "set_" ∧ slice_from 4 ("set_" +:+ a) = a.
Proof. done. Qed.

(** A name with an accessor prefix is that prefix followed by the rest. *)
Lemma accessor_prefix_inv name :
  accessor_prefix name = true →
  name = "get_" +:+ slice_from 4 name ∨ name = "set_" +:+ slice_from 4 name.
Proof.
  unfold accessor_prefix. rewrite orb_true_iff, !bool_decide_eq_true.
  destruct name as [|c1 [|c2 [|c3 [|c4 r]]]]; simpl; try (intros [?|?]; discriminate).
  intros [H|H]; [left | right]; fstring; congruence.
Qed.

Lemma dict_mem_true k d : dict_mem k d = true ↔ k ∈ keys d.
Proof. unfold dict_mem. apply bool_decide_eq_true. Qed.

Lemma dict_mem_false k d : dict_mem k d = false ↔ k ∉ keys d.
Proof. unfold dict_mem. apply bool_decide_eq_false. Qed.





Lemma values_dict_set d k v v' :
  v' ∈ values (dict_set d k v) → v' = v ∨ v' ∈ values d.
Proof.
  unfold values. induction d as [|[k0 v0] d IH]; simpl.
  - rewrite list_elem_of_singleton. auto.
  - destruct (decide (k = k0)) as [->|Hne]; simpl; rewrite !elem_of_cons.
    + tauto.
    + intros [?|?]; [tauto |]. destruct IH; tauto.
Qed.


(** ** Loops and frames *)

Lemma for_each_skip {A} (l : list A) (body : A → M unit) h :
  (∀ x, x ∈ l → body x h = (Return (), h)) →
  for_each l body h = (Return (), h).
Proof.
  induction l as [|x l IH]; intros Hbody; [done |].
  simpl. unfold bind. rewrite Hbody by left.
  apply IH. intros y Hy. apply Hbody. by right.
Qed.

(** A loop whose rounds either pass or raise, without touching the heap,
    raises at the first element that does. *)
Lemma for_each_first_raise {A} (P : A → Prop) `{!∀ x, Decision (P x)}
    (l : list A) (body : A → M unit) (e : A → exn) h :
  (∀ x, x ∈ l → ¬ P x → body x h = (Return (), h)) →
  (∀ x, x ∈ l → P x → body x h = (Raise (e x), h)) →
  Exists P l →
  ∃ x, x ∈ l ∧ P x ∧ for_each l body h = (Raise (e x), h).
Proof.
  induction l as [|x l IH]; intros Hpass Hraise Hex.
  - inversion Hex.
  - simpl. unfold bind. destruct (decide (P x)) as [HP|HP].
    + exists x. rewrite (Hraise x) by (done || left). repeat split; [left | done].
    + rewrite (Hpass x) by (done || left).
      destruct IH as (y & Hy & HPy & Hrun).
      * intros y Hy. apply Hpass. by right.
      * intros y Hy. apply Hraise. by right.
      * inversion Hex; subst; done.
      * exists y. repeat split; [by right | done | done].
Qed.

Section frames.
Context (R : heap → heap → Prop) `{!PreOrder R}.

Lemma keeps_pure {A} (c : M A) : (∀ h, (c h).2 = h) → keeps R c.
Proof. intros Hc h. by rewrite Hc. Qed.

Lemma keeps_bind {A B} (c : M A) (k : A → M B) :
  keeps R c → (∀ a, keeps R (k a)) → keeps R (bind c k).
Proof.
  intros Hc Hk h. unfold bind. specialize (Hc h).
  destruct (c h) as [[a| |] h']; simpl in *; [| done | done].
  etrans; [exact Hc | apply Hk].
Qed.

Lemma keeps_for_each {A} (l : list A) (body : A → M unit) :
  (∀ x, keeps R (body x)) → keeps R (for_each l body).
Proof.
  intros Hbody. induction l as [|x l IH]; simpl.
  - by apply keeps_pure.
  - apply keeps_bind; [apply Hbody | intros _; apply IH].
Qed.

End frames.

Lemma returns_only_bind {A B} (P : B → Prop) (c : M A) (k : A → M B) :
  (∀ a, returns_only P (k a)) → returns_only P (bind c k).
Proof.
  intros Hk h b. unfold bind.
  destruct (c h) as [[a| |] h'] eqn:Hc; simpl; [apply Hk | done | done].
Qed.

Lemma returns_only_ret {A} (P : A → Prop) (a : A) : P a → returns_only P (ret a).
Proof. intros HP h b. simpl. congruence. Qed.

Global Instance extends_preorder : PreOrder extends.
Proof.
  split; [by intros h l o | ].
  intros h1 h2 h3 H12 H23 l o Hl. eauto.
Qed.

Global Instance only_at_preorder m : PreOrder (only_at m).
Proof.
  split.
  - intros h. split; [lia | done].
  - intros h1 h2 h3 [Hlen12 H12] [Hlen23 H23]. split; [lia |].
    intros l Hne Hl. rewrite H23 by (done || lia). by apply H12.
Qed.

(** The primitives that only read. *)
Lemma getattr_heap o name h : (getattr o name h).2 = h.
Proof. unfold getattr. by destruct (lookup_attr h o name) as [[?|]|]. Qed.

Lemma getattr_default_heap o name dflt h : (getattr_default o name dflt h).2 = h.
Proof. unfold getattr_default. by destruct (lookup_attr h o name) as [[?|]|]. Qed.

Lemma items_of_heap v h : (items_of v h).2 = h.
Proof. by destruct v. Qed.

Lemma contains_heap v k h : (contains v k h).2 = h.
Proof. by destruct v. Qed.

Lemma type_of_heap v h : (type_of v h).2 = h.
Proof. destruct v; try done. simpl. by destruct (h !! l) as [[]|]. Qed.

Lemma dir_heap o h : (dir o h).2 = h.
Proof.
  destruct o; try done. simpl.
  destruct (h !! l) as [[base ns|]|]; try done.
  by destruct (static_ns base).
Qed.

(** [setattr] on the object at [m] changes that object only. *)
Lemma setattr_only_at m name v : keeps (only_at m) (setattr (VRef m) name v).
Proof.
  intros h. unfold setattr.
  repeat (case_match || case_decide); simpl; try reflexivity.
  all: split; [by rewrite length_insert |].
  all: intros l Hne _; by rewrite list_lookup_insert_ne.
Qed.

(** Frames of straight-line code, by its structure. *)
Ltac frame :=
  repeat first
    [ apply setattr_only_at
    | apply keeps_bind; [apply _ | | intros ?]
    | apply keeps_for_each; [apply _ | intros ?]
    | apply keeps_pure; [apply _ |];
      first [ apply getattr_heap | apply getattr_default_heap
            | apply items_of_heap | apply contains_heap | apply type_of_heap
            | apply dir_heap | reflexivity ]
    | match goal with
      | |- keeps _ (if decide _ then _ else _) => case_decide
      | |- keeps _ (if ?b then _ else _) => destruct b
      end ].

Lemma clean_getters_setters_only_at m :
  keeps (only_at m) (clean_getters_setters (VRef m)) ∧
  returns_only (λ v, v = VRef m) (clean_getters_setters (VRef m)).
Proof.
  unfold clean_getters_setters. split; [frame |].
  do 2 (apply returns_only_bind; intros ?). by apply returns_only_ret.
Qed.

Lemma add_getters_setters_only_at m :
  keeps (only_at m) (add_getters_setters (VRef m)) ∧
  returns_only (λ v, v = VRef m) (add_getters_setters (VRef m)).
Proof.
  unfold add_getters_setters. split.
  - frame.
  - do 4 (apply returns_only_bind; intros ?).
    apply clean_getters_setters_only_at.
Qed.

(** The reserved-name loop of [model_with_fields] and the membership loop
    of [omit_fields] read the heap without writing to it. *)
Lemma reserved_check_heap (names : list string) h :
  (for_each names (λ name,
     if decide (name ∈ _reserved_fields)
     then raise (ValueError (reserved_name name))
     else ret ()) h).2 = h.
Proof.
  symmetry.
  apply (keeps_for_each eq names
           (λ name, if decide (name ∈ _reserved_fields)
                    then raise (ValueError (reserved_name name))
                    else ret ())).
  intros name. frame.
Qed.

Lemma omit_check_heap (cls : pyval) (names : list string) h :
  (for_each names (λ fname,
     fields <- getattr cls "_fields" ;;
     declared <- contains fields fname ;;
     if declared then ret ()
     else raise (ValueError (cannot_omit fname cls))) h).2 = h.
Proof.
  symmetry.
  apply (keeps_for_each eq names
           (λ fname,
              fields <- getattr cls "_fields" ;;
              declared <- contains fields fname ;;
              if declared then ret ()
              else raise (ValueError (cannot_omit fname cls)))).
  intros name. frame.
Qed.

(** [model_with_fields] allocates one class, the one it returns, and
    leaves every earlier object as it was. *)
Lemma model_with_fields_frame args fields h :
  extends h (model_with_fields args fields h).2 ∧
  ∀ v, (model_with_fields args fields h).1 = Return v → v = VRef (length h).
Proof.
  destruct args as [|a args]; [| by split].
  unfold model_with_fields, bind.
  pose proof (reserved_check_heap (keys fields) h) as Hloop.
  destruct (for_each (keys fields) _ h) as [[[]| |] h0]; simpl in Hloop;
    subst h0; [| by split | by split].
  unfold new_class.
  destruct (add_getters_setters_only_at (length h)) as [Hkeep Hret].
  specialize (Hkeep (h ++ [ClassObj SModel (impl_model_ns fields)])).
  specialize (Hret (h ++ [ClassObj SModel (impl_model_ns fields)])).
  destruct Hkeep as [_ Hsame]. split; [| exact Hret].
  intros l o Hl. pose proof (lookup_lt_Some _ _ _ Hl) as Hlt.
  rewrite Hsame; [by apply lookup_app_l_Some | lia |].
  rewrite length_app. lia.
Qed.

Lemma add_fields_extends cls new_fields h :
  extends h (add_fields cls new_fields h).2.
Proof.
  unfold add_fields, bind.
  pose proof (getattr_heap cls "_fields" h) as Hg.
  destruct (getattr cls "_fields" h) as [[fields| |] h0]; simpl in Hg;
    subst h0; [| done | done].
  pose proof (items_of_heap fields h) as Hi.
  destruct (items_of fields h) as [[items| |] h0]; simpl in Hi;
    subst h0; [| done | done].
  destruct (model_with_fields_frame [] (dict_of_pairs (items ++ new_fields)) h)
    as [Hext Hret].
  destruct (model_with_fields [] _ h) as [[model| |] h1]; simpl in *;
    [| done | done].
  rewrite (Hret model eq_refl).
  destruct (add_getters_setters_only_at (length h)) as [Hkeep _].
  destruct (Hkeep h1) as [_ Hsame].
  intros l o Hl. pose proof (lookup_lt_Some _ _ _ Hl) as Hlt.
  pose proof (lookup_lt_Some _ _ _ (Hext _ _ Hl)) as Hlt1.
  rewrite Hsame; [by apply Hext | lia | done].
Qed.

Lemma omit_fields_extends cls rm_fields h :
  extends h (omit_fields cls rm_fields h).2.
Proof.
  unfold omit_fields, bind.
  pose proof (omit_check_heap cls (keys rm_fields) h) as Hloop.
  destruct (for_each (keys rm_fields) _ h) as [[[]| |] h0]; simpl in Hloop;
    subst h0; [| done | done].
  pose proof (getattr_heap cls "_fields" h) as Hg.
  destruct (getattr cls "_fields" h) as [[fields| |] h0]; simpl in Hg;
    subst h0; [| done | done].
  pose proof (items_of_heap fields h) as Hi.
  destruct (items_of fields h) as [[items| |] h0]; simpl in Hi;
    subst h0; done.
Qed.

(** ** The type test *)

(** [type(v)] looks at the heap for what kind of object a reference points
    to, so it is not affected by [setattr] on a class, nor by allocation. *)
Lemma type_of_insert_class v h m b ns ns' :
  h !! m = Some (ClassObj b ns) →
  (type_of v (<[m := ClassObj b ns']> h)).1 = (type_of v h).1.
Proof.
  intros Hm. destruct v; try done. simpl.
  destruct (decide (l = m)) as [->|Hne].
  - rewrite list_lookup_insert_eq by (by eapply lookup_lt_Some). by rewrite Hm.
  - rewrite list_lookup_insert_ne by done. by destruct (h !! l) as [[]|].
Qed.

Lemma is_type_insert_class v h m b ns ns' :
  h !! m = Some (ClassObj b ns) →
  is_type (<[m := ClassObj b ns']> h) v = is_type h v.
Proof. intros Hm. unfold is_type. by erewrite type_of_insert_class. Qed.

Lemma is_type_app v h o :
  valid_value h v → is_type (h ++ [o]) v = is_type h v.
Proof.
  intros Hv. destruct v; try done. unfold is_type, valid_value in *. simpl.
  rewrite lookup_app_l by lia. by destruct (h !! l) as [[]|].
Qed.

Lemma type_of_is_type h v :
  is_type h v = true → type_of v h = (Return (TStatic SType), h).
Proof.
  unfold is_type. pose proof (type_of_heap v h) as Hh.
  destruct (type_of v h) as [[t| |] h0]; simpl in *; subst; try done.
  intros Ht. apply bool_decide_eq_true in Ht. by subst.
Qed.

Lemma type_of_not_type h v :
  valid_value h v → is_type h v = false →
  ∃ t, t ≠ TStatic SType ∧ type_of v h = (Return t, h).
Proof.
  unfold is_type. intros Hv. pose proof (type_of_heap v h) as Hh.
  destruct (type_of v h) as [[t| |] h0] eqn:Ht; simpl in *; subst.
  - intros Hb. apply bool_decide_eq_false in Hb. eauto.
  - destruct v; try done. simpl in Ht. by destruct (h !! l) as [[]|].
  - destruct v; try done. simpl in *.
    apply lookup_lt_is_Some in Hv as [o Ho]. rewrite Ho in Ht. by destruct o.
Qed.

(** An accessor name is answered by the class, not by its metaclass. *)
Lemma accessor_not_type_level name :
  accessor_prefix name = true → type_level name = false.
Proof.
  unfold accessor_prefix, type_level. intros Hp.
  apply orb_false_iff. split.
  - apply andb_false_iff. left. apply bool_decide_eq_false. intros H2.
    apply orb_true_iff in Hp as [Hp|Hp]; apply bool_decide_eq_true in Hp.
    all: destruct name as [|a [|b name]]; simpl in *; try done.
    all: inversion H2; inversion Hp; congruence.
  - apply bool_decide_eq_false. intros ->. vm_compute in Hp. done.
Qed.

Lemma set_not_type_level f : type_level ("set_" +:+ f) = false.
Proof. by apply accessor_not_type_level. Qed.

Lemma get_not_type_level f : type_level ("get_" +:+ f) = false.
Proof. by apply accessor_not_type_level. Qed.

(** Assigning to a class under a name that the class answers itself. *)
Lemma setattr_class h m base ns name v :
  h !! m = Some (ClassObj base ns) →
  type_level name = false →
  setattr (VRef m) name v h
  = (Return (), <[m := ClassObj base (<[name := v]> ns)]> h).
Proof. intros Hm Hname. unfold setattr. by rewrite Hm, Hname. Qed.

(** ** The loop of [add_getters_setters] *)

Local Abbreviation accessors_body model :=
  (λ item : string * pyval,
     t <- type_of item.2 ;;
     if decide (t = TStatic SType) then
       setattr model ("set_" +:+ item.1)
         (VFun (impl_setter ("_" +:+ item.1))) ;;;
       setattr model ("get_" +:+ item.1)
         (VFun (impl_getter ("_" +:+ item.1)))
     else raise (ValueError (not_a_type item.1 item.2))).

Lemma accessors_round h m b ns (item : string * pyval) :
  h !! m = Some (ClassObj b ns) →
  is_type h item.2 = true →
  accessors_body (VRef m) item h
  = (Return (), <[m := ClassObj b (add_accessors ns item)]> h).
Proof.
  intros Hm Ht. unfold bind. rewrite (type_of_is_type _ _ Ht).
  rewrite decide_True by done.
  rewrite (setattr_class _ _ _ _ _ _ Hm (set_not_type_level _)).
  rewrite (setattr_class _ _ b (<["set_" +:+ item.1
                                  := VFun (impl_setter ("_" +:+ item.1))]> ns));
    [| apply list_lookup_insert_eq; by eapply lookup_lt_Some
     | apply get_not_type_level].
  by rewrite list_insert_insert_eq.
Qed.

Lemma accessors_loop_ok (items : dict) : ∀ h m b ns,
  h !! m = Some (ClassObj b ns) →
  Forall (λ item, is_type h item.2 = true) items →
  for_each items (accessors_body (VRef m)) h
  = (Return (), <[m := ClassObj b (accessors_ns items ns)]> h).
Proof.
  induction items as [|item items IH]; intros h m b ns Hm Hall.
  - simpl. by rewrite list_insert_id.
  - apply Forall_cons in Hall as [Ht Hall].
    cbn [for_each]. unfold bind at 1.
    rewrite (accessors_round _ _ _ _ _ Hm Ht).
    rewrite (IH _ m b (add_accessors ns item)).
    + by rewrite list_insert_insert_eq.
    + apply list_lookup_insert_eq. by eapply lookup_lt_Some.
    + eapply Forall_impl; [exact Hall |]. intros x Hx.
      by erewrite is_type_insert_class.
Qed.

(** When the loop returns, every value passed the test. *)
Lemma accessors_loop_inv (items : dict) : ∀ h m b ns u h',
  h !! m = Some (ClassObj b ns) →
  for_each items (accessors_body (VRef m)) h = (Return u, h') →
  Forall (λ item, is_type h item.2 = true) items.
Proof.
  induction items as [|item items IH]; intros h m b ns u h' Hm Hrun;
    [constructor |].
  destruct (is_type h item.2) eqn:Ht.
  - cbn [for_each] in Hrun. unfold bind at 1 in Hrun.
    rewrite (accessors_round _ _ _ _ _ Hm Ht) in Hrun.
    constructor; [done |].
    eapply IH in Hrun;
      [| apply list_lookup_insert_eq; by eapply lookup_lt_Some].
    eapply Forall_impl; [exact Hrun |]. intros x Hx. simpl in Hx.
    by erewrite is_type_insert_class in Hx.
  - exfalso. cbn [for_each] in Hrun. unfold bind in Hrun.
    unfold is_type in Ht. pose proof (type_of_heap item.2 h) as Hh.
    destruct (type_of item.2 h) as [[t| |] h0]; simpl in *; try done.
    apply bool_decide_eq_false in Ht. by rewrite decide_False in Hrun.
Qed.

(** The loop raises at the first value that is not a type. *)
Lemma accessors_loop_raise (items : dict) : ∀ h m b ns,
  h !! m = Some (ClassObj b ns) →
  Forall (λ item, valid_value h item.2) items →
  Exists (λ item, is_type h item.2 = false) items →
  ∃ name value h',
    (name, value) ∈ items ∧ is_type h value = false ∧
    for_each items (accessors_body (VRef m)) h
    = (Raise (ValueError (not_a_type name value)), h').
Proof.
  induction items as [|item items IH]; intros h m b ns Hm Hvalid Hex;
    [inversion Hex |].
  apply Forall_cons in Hvalid as [Hv Hvalid].
  destruct (is_type h item.2) eqn:Ht.
  - cbn [for_each]. unfold bind at 1.
    rewrite (accessors_round _ _ _ _ _ Hm Ht).
    destruct (IH (<[m := ClassObj b (add_accessors ns item)]> h) m b
                (add_accessors ns item)) as (name & value & h' & Hin & Hbad & Hrun).
    + apply list_lookup_insert_eq. by eapply lookup_lt_Some.
    + eapply Forall_impl; [exact Hvalid |]. intros [n v] Hx.
      destruct v; try done. simpl in *. by rewrite length_insert.
    + inversion Hex as [? ? Hhead | ? ? Htail]; subst; [congruence |].
      eapply Exists_impl; [exact Htail |]. intros x Hx.
      by erewrite is_type_insert_class.
    + exists name, value, h'. split; [by right |]. split; [| done].
      by erewrite is_type_insert_class in Hbad.
  - destruct (type_of_not_type _ _ Hv Ht) as (t & Hne & Htype).
    destruct item as [name value]. exists name, value, h.
    split; [left |]. split; [done |].
    cbn [for_each]. unfold bind. simpl in *. rewrite Htype.
    by rewrite decide_False.
Qed.

(** ** The class dictionary of a kind *)

Lemma accessors_ns_cons item items ns :
  accessors_ns (item :: items) ns = accessors_ns items (add_accessors ns item).
Proof. done. Qed.

Lemma add_accessors_other ns item name :
  name ≠ "set_" +:+ item.1 → name ≠ "get_" +:+ item.1 →
  add_accessors ns item !! name = ns !! name.
Proof.
  intros Hset Hget. unfold add_accessors.
  by rewrite !lookup_insert_ne.
Qed.

Lemma accessors_ns_other (items : dict) : ∀ ns name,
  (∀ f, f ∈ keys items → name ≠ "set_" +:+ f ∧ name ≠ "get_" +:+ f) →
  accessors_ns items ns !! name = ns !! name.
Proof.
  induction items as [|item items IH]; intros ns name Hname; [done |].
  rewrite accessors_ns_cons, IH.
  - apply add_accessors_other; apply Hname; left.
  - intros f Hf. apply Hname. by right.
Qed.

Lemma accessors_ns_declared (items : dict) : ∀ ns f,
  f ∈ keys items →
  accessors_ns items ns !! ("set_" +:+ f) = Some (VFun (impl_setter ("_" +:+ f))) ∧
  accessors_ns items ns !! ("get_" +:+ f) = Some (VFun (impl_getter ("_" +:+ f))).
Proof.
  induction items as [|item items IH]; intros ns f Hf; [inversion Hf |].
  rewrite accessors_ns_cons.
  destruct (decide (f ∈ keys items)) as [Hin|Hnin]; [by apply IH |].
  assert (f = item.1) as -> by (inversion Hf; subst; done).
  rewrite !accessors_ns_other.
  - unfold add_accessors. split.
    + rewrite lookup_insert_ne by (intros H; symmetry in H; by apply set_not_get in H).
      apply lookup_insert_eq.
    + apply lookup_insert_eq.
  - intros g Hg. split; [intros H; symmetry in H; by apply set_not_get in H |].
    intros H%get_inj. congruence.
  - intros g Hg. split; [| apply set_not_get].
    intros H%set_inj. congruence.
Qed.

Lemma accessors_ns_dom (items : dict) : ∀ ns name,
  is_Some (accessors_ns items ns !! name) →
  is_Some (ns !! name) ∨
  ∃ f, f ∈ keys items ∧ (name = "set_" +:+ f ∨ name = "get_" +:+ f).
Proof.
  induction items as [|item items IH]; intros ns name Hsome; [by left |].
  rewrite accessors_ns_cons in Hsome.
  destruct (IH _ _ Hsome) as [Hhere | (f & Hf & Hname)].
  - unfold add_accessors in Hhere.
    destruct (decide (name = "get_" +:+ item.1)) as [->|Hget];
      [right; exists item.1; split; [left | by right] |].
    destruct (decide (name = "set_" +:+ item.1)) as [->|Hset];
      [right; exists item.1; split; [left | by left] |].
    left. by rewrite !lookup_insert_ne in Hhere.
  - right. exists f. split; [by right | done].
Qed.

(** Adding the accessors again changes nothing. *)
Lemma accessors_ns_again (items : dict) ns :
  (∀ f, f ∈ keys items →
     ns !! ("set_" +:+ f) = Some (VFun (impl_setter ("_" +:+ f))) ∧
     ns !! ("get_" +:+ f) = Some (VFun (impl_getter ("_" +:+ f)))) →
  accessors_ns items ns = ns.
Proof.
  induction items as [|item items IH]; intros Hns; [done |].
  rewrite accessors_ns_cons.
  assert (add_accessors ns item = ns) as ->.
  { destruct (Hns item.1) as [Hset Hget]; [left |].
    unfold add_accessors. rewrite (insert_id _ _ _ Hset). by apply insert_id. }
  apply IH. intros f Hf. apply Hns. by right.
Qed.

Lemma impl_model_ns_lookup fields name :
  impl_model_ns fields !! name =
    if decide (name = "_fields") then Some (VDict fields)
    else if decide (name = "__module__") then Some (VStr "chat.common.util")
    else if decide (name = "__doc__") then Some VNone
    else None.
Proof.
  unfold impl_model_ns. repeat case_decide; subst; by simplify_map_eq.
Qed.

Lemma kind_ns_fields fields : kind_ns fields !! "_fields" = Some (VDict fields).
Proof.
  unfold kind_ns. rewrite lookup_insert_ne by done.
  rewrite accessors_ns_other; [by rewrite impl_model_ns_lookup |].
  intros f _. by fstring.
Qed.

Lemma kind_ns_init fields : kind_ns fields !! "__init__" = Some (VFun impl_init).
Proof. apply lookup_insert_eq. Qed.

Lemma kind_ns_declared fields f :
  f ∈ keys fields →
  kind_ns fields !! ("set_" +:+ f) = Some (VFun (impl_setter ("_" +:+ f))) ∧
  kind_ns fields !! ("get_" +:+ f) = Some (VFun (impl_getter ("_" +:+ f))).
Proof.
  intros Hf. unfold kind_ns.
  rewrite !lookup_insert_ne by (by fstring).
  by apply accessors_ns_declared.
Qed.

Lemma kind_ns_again fields :
  <["__init__" := VFun impl_init]> (accessors_ns fields (kind_ns fields))
  = kind_ns fields.
Proof.
  rewrite accessors_ns_again by apply kind_ns_declared.
  apply insert_id, kind_ns_init.
Qed.

(** The declared accessors are not stale, and a name without the prefix
    never is. *)
Lemma declared_not_stale fields f :
  f ∈ keys fields →
  stale fields ("set_" +:+ f) = false ∧ stale fields ("get_" +:+ f) = false.
Proof.
  intros Hf%dict_mem_true. unfold stale.
  destruct (slice_set f) as [_ ->]. destruct (slice_get f) as [_ ->].
  rewrite Hf. by rewrite !andb_false_r.
Qed.

Lemma add_accessors_stale fields items ns :
  (∀ f, f ∈ keys items → f ∈ keys fields) →
  (∀ name, is_Some (ns !! name) → stale fields name = false) →
  ∀ name, is_Some (accessors_ns items ns !! name) → stale fields name = false.
Proof.
  intros Hsub Hns name Hsome.
  destruct (accessors_ns_dom _ _ _ Hsome) as [Hhere | (f & Hf & [->| ->])].
  - by apply Hns.
  - by apply declared_not_stale, Hsub.
  - by apply declared_not_stale, Hsub.
Qed.

Lemma kind_ns_not_stale fields name :
  is_Some (kind_ns fields !! name) → stale fields name = false.
Proof.
  unfold kind_ns. intros Hsome.
  destruct (decide (name = "__init__")) as [->|Hne]; [done |].
  rewrite lookup_insert_ne in Hsome by done.
  clear Hne. revert name Hsome. apply add_accessors_stale; [done |].
  intros name. rewrite impl_model_ns_lookup.
  repeat case_decide; subst; done.
Qed.

(** ** Compilation *)

(** [Model] and [object] define no attribute with an accessor prefix. *)
Lemma Model_no_accessor :
  Forall (λ name, accessor_prefix name = false) (Model_ns ++ object_ns).*1.
Proof. repeat constructor. Qed.

Lemma static_get_None name (sns : list (string * static_attr)) :
  name ∉ sns.*1 → static_get name sns = None.
Proof.
  induction sns as [|[n a] sns IH]; [done |].
  intros [Hne Hnot]%not_elem_of_cons. simpl.
  rewrite decide_False by done. by apply IH.
Qed.

Lemma Model_static_no_accessor name :
  accessor_prefix name = true →
  static_get name (Model_ns ++ object_ns) = None.
Proof.
  intros Hprefix. apply static_get_None. intros Hin.
  pose proof Model_no_accessor as Hall. rewrite Forall_forall in Hall.
  apply Hall in Hin. congruence.
Qed.

Lemma class_fields h m base ns fields :
  h !! m = Some (ClassObj base ns) →
  ns !! "_fields" = Some (VDict fields) →
  getattr (VRef m) "_fields" h = (Return (VDict fields), h).
Proof.
  intros Hm Hf. unfold getattr, lookup_attr, class_attr. by rewrite Hm, Hf.
Qed.

(** On a class without stale accessors, [clean_getters_setters] changes
    nothing. *)
Lemma clean_getters_setters_noop h m ns fields :
  h !! m = Some (ClassObj SModel ns) →
  ns !! "_fields" = Some (VDict fields) →
  (∀ name, is_Some (ns !! name) → stale fields name = false) →
  clean_getters_setters (VRef m) h = (Return (VRef m), h).
Proof.
  intros Hm Hf Hns. unfold clean_getters_setters, bind, dir.
  rewrite Hm. cbn [static_ns]. rewrite for_each_skip; [done |].
  intros name Hname. apply elem_of_remove_dups, elem_of_app in Hname.
  assert (stale fields name = false) as Hstale.
  { destruct Hname as [Hown | Hbase].
    - apply Hns. apply list_elem_of_fmap in Hown as ([k v] & -> & Hkv).
      apply elem_of_map_to_list in Hkv. by exists v.
    - pose proof Model_no_accessor as Hall.
      rewrite Forall_forall in Hall. unfold stale. by rewrite Hall. }
  unfold stale, accessor_prefix in Hstale. cbv beta.
  destruct (decide (slice_to 4 name = "get_")) as [Hget|Hget].
  - rewrite (bool_decide_eq_true_2 _ Hget) in Hstale. cbn [orb andb] in Hstale.
    apply negb_false_iff in Hstale.
    unfold bind. rewrite (class_fields _ _ _ _ _ Hm Hf). cbn [contains ret].
    by rewrite Hstale.
  - rewrite (bool_decide_eq_false_2 _ Hget) in Hstale.
    destruct (decide (slice_to 4 name = "set_")) as [Hset|Hset]; [| done].
    rewrite (bool_decide_eq_true_2 _ Hset) in Hstale. cbn [orb andb] in Hstale.
    apply negb_false_iff in Hstale.
    unfold bind. rewrite (class_fields _ _ _ _ _ Hm Hf). cbn [contains ret].
    by rewrite Hstale.
Qed.

(** [add_getters_setters] on a class whose schema holds types only. *)
Lemma add_getters_setters_ok h m ns fields :
  h !! m = Some (ClassObj SModel ns) →
  ns !! "_fields" = Some (VDict fields) →
  Forall (λ item, is_type h item.2 = true) fields →
  (∀ name, is_Some (ns !! name) → stale fields name = false) →
  add_getters_setters (VRef m) h
  = (Return (VRef m),
     <[m := ClassObj SModel
              (<["__init__" := VFun impl_init]> (accessors_ns fields ns))]> h).
Proof.
  intros Hm Hf Htypes Hns. unfold add_getters_setters.
  unfold bind at 1. rewrite (class_fields _ _ _ _ _ Hm Hf).
  unfold bind at 1. cbn [items_of ret].
  unfold bind at 1. rewrite (accessors_loop_ok _ _ _ _ _ Hm Htypes).
  assert (m < length h)%nat as Hlt by (by eapply lookup_lt_Some).
  unfold bind at 1, setattr at 1.
  rewrite list_lookup_insert_eq by done. rewrite list_insert_insert_eq.
  eapply clean_getters_setters_noop with (fields := fields).
  - by apply list_lookup_insert_eq.
  - rewrite lookup_insert_ne by done.
    rewrite accessors_ns_other; [done | intros f _; by fstring].
  - intros name Hsome.
    destruct (decide (name = "__init__")) as [->|Hne]; [done |].
    rewrite lookup_insert_ne in Hsome by done.
    by eapply add_accessors_stale.
Qed.

(** The reserved-name loop. *)
Lemma reserved_check_ok (names : list string) h :
  Forall (λ name, name ∉ _reserved_fields) names →
  for_each names (λ name,
    if decide (name ∈ _reserved_fields)
    then raise (ValueError (reserved_name name))
    else ret ()) h = (Return (), h).
Proof.
  intros Hall. apply for_each_skip. intros name Hname.
  rewrite Forall_forall in Hall. by rewrite decide_False by auto.
Qed.

Lemma reserved_check_raise (names : list string) h :
  Exists (λ name, name ∈ _reserved_fields) names →
  ∃ name, name ∈ names ∧ name ∈ _reserved_fields ∧
    for_each names (λ name,
      if decide (name ∈ _reserved_fields)
      then raise (ValueError (reserved_name name))
      else ret ()) h = (Raise (ValueError (reserved_name name)), h).
Proof.
  apply (for_each_first_raise (λ name, name ∈ _reserved_fields) names _
           (λ name, ValueError (reserved_name name))).
  - intros name _ Hname. by rewrite decide_False.
  - intros name _ Hname. by rewrite decide_True.
Qed.

(** Compilation of a schema without reserved names whose values are all
    types, the test being made once the class exists. *)
Lemma model_with_fields_ok fields h :
  Forall (λ name, name ∉ _reserved_fields) (keys fields) →
  Forall (λ item,
            is_type (h ++ [ClassObj SModel (impl_model_ns fields)]) item.2 = true)
         fields →
  model_with_fields [] fields h
  = (Return (VRef (length h)), h ++ [ClassObj SModel (kind_ns fields)]).
Proof.
  intros Hres Htypes. unfold model_with_fields.
  unfold bind at 1. rewrite (reserved_check_ok _ _ Hres).
  unfold bind at 1, new_class.
  rewrite (add_getters_setters_ok _ _ (impl_model_ns fields) fields).
  - f_equal. rewrite insert_app_r_alt by done.
    by rewrite Nat.sub_diag.
  - by rewrite lookup_app_r, Nat.sub_diag by done.
  - by rewrite impl_model_ns_lookup.
  - done.
  - intros name. rewrite impl_model_ns_lookup.
    repeat case_decide; subst; done.
Qed.

(** Conversely, a compilation that returns has met no reserved name and
    no value that is not a type. *)
Lemma model_with_fields_inv args fields h K h' :
  model_with_fields args fields h = (Return K, h') →
  args = [] ∧ K = VRef (length h) ∧
  h' = h ++ [ClassObj SModel (kind_ns fields)].
Proof.
  intros Hrun. destruct args as [|a args]; [| done]. split; [done |].
  assert (Forall (λ name, name ∉ _reserved_fields) (keys fields)) as Hres.
  { destruct (decide (Exists (λ name, name ∈ _reserved_fields) (keys fields)))
      as [Hex|Hall].
    - exfalso.
      destruct (reserved_check_raise _ h Hex) as (name & _ & _ & Hraise).
      unfold model_with_fields, bind in Hrun. by rewrite Hraise in Hrun.
    - apply not_Exists_Forall in Hall; [| apply _].
      eapply Forall_impl; [exact Hall | done]. }
  assert (Forall (λ item,
            is_type (h ++ [ClassObj SModel (impl_model_ns fields)]) item.2 = true)
            fields) as Htypes.
  { unfold model_with_fields in Hrun.
    unfold bind at 1 in Hrun. rewrite (reserved_check_ok _ _ Hres) in Hrun.
    unfold bind at 1, new_class in Hrun.
    unfold add_getters_setters in Hrun.
    unfold bind at 1 in Hrun.
    rewrite (class_fields _ (length h) SModel (impl_model_ns fields) fields) in Hrun;
      [| by rewrite lookup_app_r, Nat.sub_diag by done
       | by rewrite impl_model_ns_lookup].
    unfold bind at 1 in Hrun. cbn [items_of ret] in Hrun.
    unfold bind at 1 in Hrun.
    destruct (for_each fields _ _) as [[[]| |] h1] eqn:Hloop; [| done | done].
    eapply accessors_loop_inv; [| exact Hloop].
    by rewrite lookup_app_r, Nat.sub_diag by done. }
  rewrite (model_with_fields_ok _ _ Hres Htypes) in Hrun.
  by inversion Hrun.
Qed.

(** Compilation meets a value that is not a type. *)
Lemma model_with_fields_not_a_type fields h :
  Forall (λ name, name ∉ _reserved_fields) (keys fields) →
  Forall (λ item, valid_value h item.2) fields →
  Exists (λ item, is_type h item.2 = false) fields →
  ∃ name value h',
    (name, value) ∈ fields ∧ is_type h value = false ∧
    model_with_fields [] fields h
    = (Raise (ValueError (not_a_type name value)), h').
Proof.
  intros Hres Hvalid Hex.
  set (h1 := h ++ [ClassObj SModel (impl_model_ns fields)]).
  destruct (accessors_loop_raise fields h1 (length h) SModel
              (impl_model_ns fields)) as (name & value & h' & Hin & Hbad & Hrun).
  - unfold h1. by rewrite lookup_app_r, Nat.sub_diag by done.
  - eapply Forall_impl; [exact Hvalid |]. intros [n v] Hv.
    destruct v; try done. unfold h1. simpl in *. rewrite length_app. lia.
  - rewrite Forall_forall in Hvalid.
    apply Exists_exists in Hex as (item & Hitem & Hfalse).
    apply Exists_exists. exists item. split; [done |].
    unfold h1. rewrite is_type_app; [done | by apply Hvalid].
  - exists name, value, h'. rewrite Forall_forall in Hvalid.
    split; [done |]. split.
    + unfold h1 in Hbad. rewrite is_type_app in Hbad; [done |].
      by apply (Hvalid (name, value)).
    + unfold model_with_fields.
      unfold bind at 1. rewrite (reserved_check_ok _ _ Hres).
      unfold bind at 1, new_class. fold h1.
      unfold add_getters_setters.
      unfold bind at 1.
      rewrite (class_fields _ (length h) SModel (impl_model_ns fields) fields);
        [| unfold h1; by rewrite lookup_app_r, Nat.sub_diag by done
         | by rewrite impl_model_ns_lookup].
      unfold bind at 1. cbn [items_of ret].
      unfold bind at 1. by rewrite Hrun.
Qed.

(** ** Instances *)

Local Abbreviation init_body self kwargs :=
  (λ name : string,
     if dict_mem name kwargs then
       setter <- getattr_default self ("set_" +:+ name) (VFun ident_lambda) ;;
       val <- subscript kwargs name ;;
       call_positional setter [val] ;;;
       ret ()
     else setattr self ("_" +:+ name) VNone).






















(** ** [dict(pairs)] *)

Local Abbreviation set_pair := (λ (d : dict) (kv : string * pyval), dict_set d kv.1 kv.2).








(** * The claims *)


(** C1. [omit_fields] is to return a new kind whose fields are those of
    the kind minus the omitted ones.  It does not: when every omitted name
    is a declared field, the call to [model_with_fields] passes the
    remaining fields as one positional dict, which the keyword-only
    static method cannot bind, so [omit_fields] raises [TypeError] and no
    kind is built. *)
Theorem omit_fields_declared_raises (h : heap) (cls : pyval)
    (fields rm_fields : dict) :
  getattr cls "_fields" h = (Return (VDict fields), h) →
  (∀ fname, fname ∈ keys rm_fields → fname ∈ keys fields) →
  omit_fields cls rm_fields h
  = (Raise (TypeError "model_with_fields() takes 0 positional arguments"), h).
Proof.
  intros Hfields Hdeclared. unfold omit_fields.
  unfold bind at 1. rewrite for_each_skip.
  - unfold bind at 1. rewrite Hfields. done.
  - intros fname Hfname. unfold bind. rewrite Hfields. cbn [contains ret].
    apply Hdeclared, dict_mem_true in Hfname. by rewrite Hfname.
Qed.

Lemma omit_fields_declared_raises_witness :
  omit_fields (VRef 0) [("logged_in", VClass SBool)] account_heap
  = (Raise (TypeError "model_with_fields() takes 0 positional arguments"),
     account_heap).
Proof.
  apply (omit_fields_declared_raises account_heap (VRef 0) account_schema).
  - vm_compute. reflexivity.
  - intros fname Hfname. apply list_elem_of_singleton in Hfname. subst.
    vm_compute. right. left.
Defined.

(** C2. [model_from_proto] is to return the kind compiled from a valid
    declaration.  It does not: for every subclass of [Interface] whose
    [_fields_enum] is an [Enum] subclass, whatever its members, the checks
    pass and the function then asks [Model] for [model_from_fields], an
    attribute that does not exist, so it raises [AttributeError]. *)
Theorem model_from_proto_raises (h : heap) (l : loc)
    (ns : gmap string pyval) (qualname : string)
    (members : list (string * (string * pyval))) :
  h !! l = Some (ClassObj SInterface ns) →
  ns !! "_fields_enum" = Some (VEnumClass qualname members) →
  model_from_proto (VRef l) h = (Raise (AttributeError "model_from_fields"), h).
Proof.
  intros Hl Hns.
  assert (lookup_attr h (VRef l) "_fields_enum"
          = Some (Some (VEnumClass qualname members))) as Hlook
    by (unfold lookup_attr, class_attr; by rewrite Hl, Hns).
  assert (issubclass (VRef l) SInterface h = (Return true, h)) as Hsub
    by (unfold issubclass; by rewrite Hl).
  unfold model_from_proto.
  unfold bind at 1. rewrite Hsub. cbn [negb].
  unfold bind at 1, hasattr. rewrite Hlook. cbn [negb].
  unfold bind at 1, getattr. rewrite Hlook.
  reflexivity.
Qed.

Lemma model_from_proto_raises_witness :
  model_from_proto (VRef 0)
    [ClassObj SInterface
       {[ "_fields_enum" :=
            VEnumClass "AccountFields" [("username", ("username", VClass SStr))] ]}]
  = (Raise (AttributeError "model_from_fields"),
     [ClassObj SInterface
       {[ "_fields_enum" :=
            VEnumClass "AccountFields" [("username", ("username", VClass SStr))] ]}]).
Proof.
  apply (model_from_proto_raises _ 0
           {[ "_fields_enum" :=
                VEnumClass "AccountFields" [("username", ("username", VClass SStr))] ]}
           "AccountFields" [("username", ("username", VClass SStr))]).
  - reflexivity.
  - vm_compute. reflexivity.
Defined.




(** C4. Neither [add_fields] nor [omit_fields] changes the kind it is
    called on: the object at the kind's address, with its [_fields] and
    its accessors, is the same after the call, whether the call returns a
    new kind or raises. *)
Theorem derivation_leaves_kind_unchanged (h : heap) (k : loc) (K : object)
    (new_fields rm_fields : dict) :
  h !! k = Some K →
  (add_fields (VRef k) new_fields h).2 !! k = Some K ∧
  (omit_fields (VRef k) rm_fields h).2 !! k = Some K.
Proof.
  intros Hk. split.
  - by apply add_fields_extends.
  - by apply omit_fields_extends.
Qed.

Lemma derivation_leaves_kind_unchanged_witness :
  (add_fields (VRef 0) [("active_since", VClass SInt)] account_heap).2 !! 0
  = Some (ClassObj SModel (kind_ns account_schema)) ∧
  (omit_fields (VRef 0) [("logged_in", VClass SBool)] account_heap).2 !! 0
  = Some (ClassObj SModel (kind_ns account_schema)).
Proof.
  apply (derivation_leaves_kind_unchanged account_heap 0).
  vm_compute. reflexivity.
Defined.

(** C5, as stated, fails twice.  The private name of a field [_class__]
    is [__class__], a slot that takes classes only: on the instance that
    [K(_class__=K)] makes, the setter called with [5] raises [TypeError].
    And an attribute of the instance hides the accessor of the class: once
    [i.set_username(5, 'set_username')] has stored [5] under the name of
    the setter, [i.set_username('alice')] calls [5] and raises. *)
Lemma setter_of_slot_field_raises :
  (∃ h K i h',
     model_with_fields [] [("_class__", VClass SStr)] [] = (Return K, h) ∧
     construct K [("_class__", K)] h = (Return (VRef i), h') ∧
     call_method (VRef i) ("set_" +:+ "_class__") [VInt 5] h'
     = (Raise (TypeError "__class__ must be set to a class"), h')) ∧
  (∃ i h' h'',
     construct (VRef 0) [] account_heap = (Return (VRef i), h') ∧
     call_method (VRef i) ("set_" +:+ "username")
       [VInt 5; VStr "set_username"] h'
     = (Return (VRef i), h'') ∧
     call_method (VRef i) ("set_" +:+ "username") [VStr "alice"] h''
     = (Raise (TypeError "object is not callable"), h'')).
Proof.
  split.
  - eexists _, _, _, _. split; [| split]; vm_compute; reflexivity.
  - eexists _, _, _. split; [| split]; vm_compute; reflexivity.
Qed.



(** C6, as stated, fails on a kind that declares a field whose private
    name is a slot of the instance.  The kind of [{_class__: str}]
    compiles, and calling it without arguments raises [TypeError]: the
    constructor assigns [None] to [__class__]. *)
Lemma construct_slot_field_raises :
  ∃ h K h',
    model_with_fields [] [("_class__", VClass SStr)] [] = (Return K, h) ∧
    construct K [] h
    = (Raise (TypeError "__class__ must be set to a class"), h').
Proof. eexists _, _, _. split; vm_compute; reflexivity. Qed.



(** C7, as stated, fails on a schema with a reserved name: the
    reserved-name check comes first.  With [{_fields: str}] every value is
    a type and yet no kind is built; with [{_fields: 5}] a value is not a
    type and yet the error is not the one of the type test. *)
Lemma reserved_name_precedes_type_test :
  (Forall (λ item, is_type [] item.2 = true) [("_fields", VClass SStr)] ∧
   model_with_fields [] [("_fields", VClass SStr)] []
   = (Raise (ValueError (reserved_name "_fields")), [])) ∧
  (Exists (λ item, is_type [] item.2 = false) [("_fields", VInt 5)] ∧
   model_with_fields [] [("_fields", VInt 5)] []
   = (Raise (ValueError (reserved_name "_fields")), [])).
Proof.
  split; (split; [repeat constructor | vm_compute; reflexivity]).
Qed.

(** C7, amended.  For a schema without reserved names, compilation raises
    the not-a-type [ValueError] exactly when some value fails
    [type(value) is type], and when every value passes it returns a
    kind. *)
Theorem not_a_type_iff (fields : dict) (h : heap) :
  Forall (λ name, name ∉ _reserved_fields) (keys fields) →
  Forall (λ item, valid_value h item.2) fields →
  ((∃ name value h',
      model_with_fields [] fields h
      = (Raise (ValueError (not_a_type name value)), h'))
   ↔ Exists (λ item, is_type h item.2 = false) fields) ∧
  (Forall (λ item, is_type h item.2 = true) fields →
   ∃ K h', model_with_fields [] fields h = (Return K, h')).
Proof.
  intros Hres Hvalid.
  assert (Forall (λ item, is_type h item.2 = true) fields →
          model_with_fields [] fields h
          = (Return (VRef (length h)), h ++ [ClassObj SModel (kind_ns fields)]))
    as Hok.
  { intros Htypes. apply model_with_fields_ok; [done |].
    rewrite Forall_forall in Htypes, Hvalid. apply Forall_forall.
    intros item Hitem. rewrite is_type_app; auto. }
  split; [split |].
  - intros (name & value & h' & Hraise).
    destruct (decide (Exists (λ item, is_type h item.2 = false) fields))
      as [|Hall]; [done | exfalso].
    apply not_Exists_Forall in Hall; [| apply _].
    rewrite Hok in Hraise; [done |].
    eapply Forall_impl; [exact Hall |]. intros item Hitem. simpl in Hitem.
    by destruct (is_type h item.2).
  - intros Hex.
    destruct (model_with_fields_not_a_type _ _ Hres Hvalid Hex)
      as (name & value & h' & _ & _ & Hraise).
    by exists name, value, h'.
  - intros Htypes. rewrite (Hok Htypes). by eexists _, _.
Qed.

Lemma not_a_type_iff_witness :
  ((∃ name value h',
      model_with_fields [] [("username", VClass SStr); ("age", VInt 5)] []
      = (Raise (ValueError (not_a_type name value)), h'))
   ↔ Exists (λ item, is_type [] item.2 = false)
       [("username", VClass SStr); ("age", VInt 5)]) ∧
  (Forall (λ item, is_type [] item.2 = true)
     [("username", VClass SStr); ("age", VInt 5)] →
   ∃ K h',
     model_with_fields [] [("username", VClass SStr); ("age", VInt 5)] []
     = (Return K, h')).
Proof.
  apply (not_a_type_iff [("username", VClass SStr); ("age", VInt 5)] []).
  - apply (bool_decide_unpack _). vm_compute. exact I.
  - repeat constructor.
Defined.

(** The test is on the metaclass: a class whose metaclass is not [type],
    an [Enum] subclass for one, is turned down like any other value. *)
Lemma enum_class_is_not_a_type :
  (model_with_fields [] [("status", VEnumClass "Status" [])] []).1
  = Raise (ValueError (not_a_type "status" (VEnumClass "Status" []))).
Proof. vm_compute. reflexivity. Qed.

(** C8. A schema that contains a reserved name, at whatever position, is
    rejected with the reserved-name [ValueError] before any class is
    created: the heap is left as it was. *)
Theorem reserved_name_rejected (fields : dict) (h : heap) :
  (∃ name, name ∈ keys fields ∧ name ∈ _reserved_fields) →
  ∃ name, name ∈ keys fields ∧ name ∈ _reserved_fields ∧
    model_with_fields [] fields h
    = (Raise (ValueError (reserved_name name)), h).
Proof.
  intros Hex. apply Exists_exists in Hex.
  destruct (reserved_check_raise _ h Hex) as (name & Hin & Hres & Hraise).
  exists name. split; [done |]. split; [done |].
  unfold model_with_fields, bind. by rewrite Hraise.
Qed.

Lemma reserved_name_rejected_witness :
  ∃ name,
    name ∈ keys [("username", VClass SStr); ("_reserved_fields", VClass SBool)] ∧
    name ∈ _reserved_fields ∧
    model_with_fields []
      [("username", VClass SStr); ("_reserved_fields", VClass SBool)]
      account_heap
    = (Raise (ValueError (reserved_name name)), account_heap).
Proof.
  apply (reserved_name_rejected
           [("username", VClass SStr); ("_reserved_fields", VClass SBool)]
           account_heap).
  exists "_reserved_fields". split.
  - right. left.
  - right. left.
Defined.

(** C9, as stated, fails for the name [cls]: [omit_fields] is a class
    method whose first parameter is [cls], so that the keyword [cls]
    cannot be bound and the call raises [TypeError] before the body
    looks at any name. *)
Lemma omit_cls_raises_type_error :
  "cls" ∈ keys [("cls", VClass SInt)] ∧
  ("cls" ∉ keys account_schema) ∧
  getattr (VRef 0) "_fields" account_heap
  = (Return (VDict account_schema), account_heap) ∧
  call_omit_fields (VRef 0) [("cls", VClass SInt)] account_heap
  = (Raise (TypeError "got multiple values for argument"), account_heap).
Proof.
  split; [left |]. split; [apply (bool_decide_unpack _); vm_compute; exact I |].
  split; vm_compute; reflexivity.
Qed.



(** C10, as stated, fails twice.  The constructor's first parameter is
    [self], so that the undeclared keyword [self] cannot be bound:
    [K(self=1)] raises [TypeError], where [K()] returns an instance.  And
    on a kind with a field [_class__], whose private name is a slot of the
    instance, the call raises whatever the undeclared keywords. *)
Lemma construct_keyword_self_raises :
  (("self" ∉ keys account_schema) ∧
   (∃ h', construct (VRef 0) [("self", VInt 1)] account_heap
          = (Raise (TypeError "got multiple values for argument"), h')) ∧
   (∃ i h', construct (VRef 0) [] account_heap = (Return (VRef i), h'))) ∧
  (∃ h K h',
     model_with_fields [] [("_class__", VClass SStr)] [] = (Return K, h) ∧
     ("nickname" ∉ keys [("_class__", VClass SStr)]) ∧
     construct K [("nickname", VStr "al")] h
     = (Raise (TypeError "__class__ must be set to a class"), h')).
Proof.
  split; [split; [| split] |].
  - apply (bool_decide_unpack _). vm_compute. exact I.
  - eexists. vm_compute. reflexivity.
  - eexists _, _. vm_compute. reflexivity.
  - eexists _, _, _. split; [| split].
    + vm_compute. reflexivity.
    + apply (bool_decide_unpack _). vm_compute. exact I.
    + vm_compute. reflexivity.
Qed.



(** X1. A compiled kind exposes the getter and the setter of each declared
    field, bound to the private slot of that field, and no attribute named
    [get_...] or [set_...] for any name that is not declared. *)
Theorem compiled_accessors_exact (fields : dict) (h0 h1 : heap) (K : pyval) :
  model_with_fields [] fields h0 = (Return K, h1) →
  (∀ f, f ∈ keys fields →
     getattr K ("set_" +:+ f) h1
     = (Return (VFun (impl_setter ("_" +:+ f))), h1) ∧
     getattr K ("get_" +:+ f) h1
     = (Return (VFun (impl_getter ("_" +:+ f))), h1)) ∧
  (∀ name, accessor_prefix name = true → slice_from 4 name ∉ keys fields →
     getattr K name h1 = (Raise (AttributeError name), h1)).
Proof.
  intros Hrun. apply model_with_fields_inv in Hrun as (_ & -> & ->).
  assert ((h0 ++ [ClassObj SModel (kind_ns fields)]) !! length h0
          = Some (ClassObj SModel (kind_ns fields))) as Hk
    by (by rewrite lookup_app_r, Nat.sub_diag by done).
  split.
  - intros f Hf. destruct (kind_ns_declared _ _ Hf) as [Hset Hget].
    unfold getattr, lookup_attr, class_attr. by rewrite Hk, Hset, Hget.
  - intros name Hprefix Hundeclared.
    assert (kind_ns fields !! name = None) as Hown.
    { apply eq_None_not_Some. intros Hsome%kind_ns_not_stale.
      unfold stale in Hsome. rewrite Hprefix in Hsome.
      apply dict_mem_false in Hundeclared. by rewrite Hundeclared in Hsome. }
    unfold getattr, lookup_attr, class_attr.
    rewrite Hk, (accessor_not_type_level _ Hprefix), Hown.
    unfold static_attr_of. cbn [static_ns].
    by rewrite (Model_static_no_accessor _ Hprefix).
Qed.

Lemma compiled_accessors_exact_witness :
  (∀ f, f ∈ keys account_schema →
     getattr (VRef 0) ("set_" +:+ f) account_heap
     = (Return (VFun (impl_setter ("_" +:+ f))), account_heap) ∧
     getattr (VRef 0) ("get_" +:+ f) account_heap
     = (Return (VFun (impl_getter ("_" +:+ f))), account_heap)) ∧
  (∀ name, accessor_prefix name = true →
     slice_from 4 name ∉ keys account_schema →
     getattr (VRef 0) name account_heap
     = (Raise (AttributeError name), account_heap)).
Proof.
  apply (compiled_accessors_exact account_schema [] account_heap (VRef 0)).
  vm_compute. reflexivity.
Defined.

(** * Further properties of the generator *)

(** ** Compilation and derivation *)

(** A class at the end of the heap passes the type test like any other
    class at that address. *)
Lemma is_type_last_class (h : heap) b ns b' ns' v :
  is_type (h ++ [ClassObj b ns]) v = is_type (h ++ [ClassObj b' ns']) v.
Proof.
  unfold is_type. destruct v; try done. simpl.
  destruct (decide (l < length h)%nat) as [Hlt|Hge].
  - rewrite !lookup_app_l by done. by destruct (h !! l) as [[]|].
  - rewrite !lookup_app_r by lia.
    by destruct (l - length h)%nat as [|[|n]].
Qed.

(** The values of a schema that compiled are types in the heap that holds
    the kind. *)
Lemma model_with_fields_types fields (h : heap) K h' :
  model_with_fields [] fields h = (Return K, h') →
  Forall (λ item, is_type h' item.2 = true) fields.
Proof.
  intros Hrun. pose proof Hrun as (_ & _ & ->)%model_with_fields_inv.
  assert (Forall (λ name, name ∉ _reserved_fields) (keys fields)) as Hres.
  { destruct (decide (Exists (λ name, name ∈ _reserved_fields) (keys fields)))
      as [Hex|Hall].
    - exfalso.
      destruct (reserved_check_raise _ h Hex) as (name & _ & _ & Hraise).
      unfold model_with_fields, bind in Hrun. by rewrite Hraise in Hrun.
    - apply not_Exists_Forall in Hall; [| apply _].
      eapply Forall_impl; [exact Hall | done]. }
  unfold model_with_fields in Hrun.
  unfold bind at 1 in Hrun. rewrite (reserved_check_ok _ _ Hres) in Hrun.
  unfold bind at 1, new_class in Hrun.
  unfold add_getters_setters in Hrun.
  unfold bind at 1 in Hrun.
  rewrite (class_fields _ (length h) SModel (impl_model_ns fields) fields) in Hrun;
    [| by rewrite lookup_app_r, Nat.sub_diag by done
     | by rewrite impl_model_ns_lookup].
  unfold bind at 1 in Hrun. cbn [items_of ret] in Hrun.
  unfold bind at 1 in Hrun.
  destruct (for_each fields _ _) as [[[]| |] h1] eqn:Hloop; [| done | done].
  eapply accessors_loop_inv in Hloop;
    [| by rewrite lookup_app_r, Nat.sub_diag by done].
  eapply Forall_impl; [exact Hloop |]. intros item Hitem. simpl in Hitem.
  by rewrite (is_type_last_class h SModel (kind_ns fields) SModel
                (impl_model_ns fields)).
Qed.

(** Run on a class that is already the class of its schema,
    [add_getters_setters] changes nothing. *)
Lemma add_getters_setters_again (h : heap) k fields :
  h !! k = Some (ClassObj SModel (kind_ns fields)) →
  Forall (λ item, is_type h item.2 = true) fields →
  add_getters_setters (VRef k) h = (Return (VRef k), h).
Proof.
  intros Hk Htypes.
  rewrite (add_getters_setters_ok _ _ (kind_ns fields) fields);
    [| done | apply kind_ns_fields | done | apply kind_ns_not_stale].
  by rewrite kind_ns_again, list_insert_id.
Qed.

(** X2. [add_getters_setters] is idempotent on a compiled kind: run again
    on the class that [model_with_fields] returned, it returns that class
    and leaves the heap, the class included, as it was. *)
Theorem add_getters_setters_idempotent (fields : dict) (h0 h1 : heap)
    (K : pyval) :
  model_with_fields [] fields h0 = (Return K, h1) →
  add_getters_setters K h1 = (Return K, h1).
Proof.
  intros Hrun. pose proof (model_with_fields_types _ _ _ _ Hrun) as Htypes.
  apply model_with_fields_inv in Hrun as (_ & -> & ->).
  apply (add_getters_setters_again _ _ fields); [| done].
  by rewrite lookup_app_r, Nat.sub_diag by done.
Qed.

Lemma add_getters_setters_idempotent_witness :
  add_getters_setters (VRef 0) account_heap = (Return (VRef 0), account_heap).
Proof.
  apply (add_getters_setters_idempotent account_schema [] account_heap (VRef 0)).
  vm_compute. reflexivity.
Defined.



(** ** The cleaning pass *)

Local Abbreviation clean_step fields :=
  (λ (ns : gmap string pyval) (attr_name : string),
     if stale fields attr_name then <[attr_name := VNone]> ns else ns).

Local Abbreviation clean_body model :=
  (λ attr_name : string,
     if decide (slice_to 4 attr_name = "get_") then
       fields <- getattr model "_fields" ;;
       declared <- contains fields (slice_from 4 attr_name) ;;
       if declared then ret () else setattr model attr_name VNone
     else if decide (slice_to 4 attr_name = "set_") then
       fields <- getattr model "_fields" ;;
       declared <- contains fields (slice_from 4 attr_name) ;;
       if declared then ret () else setattr model attr_name VNone
     else ret ()).

Lemma stale_fields_attr fields : stale fields "_fields" = false.
Proof. done. Qed.

Lemma clean_round (h : heap) m ns fields attr_name :
  h !! m = Some (ClassObj SModel ns) →
  ns !! "_fields" = Some (VDict fields) →
  clean_body (VRef m) attr_name h
  = (Return (), <[m := ClassObj SModel (clean_step fields ns attr_name)]> h).
Proof.
  intros Hm Hf.
  assert (accessor_prefix attr_name = true → type_level attr_name = false)
    as Hlevel by apply accessor_not_type_level.
  unfold stale, accessor_prefix in *. cbv beta.
  destruct (decide (slice_to 4 attr_name = "get_")) as [Hget|Hget].
  - rewrite (bool_decide_eq_true_2 _ Hget) in *. cbn [orb andb].
    unfold bind. rewrite (class_fields _ _ _ _ _ Hm Hf). cbn [contains ret].
    destruct (dict_mem (slice_from 4 attr_name) fields); cbn [negb].
    + by rewrite list_insert_id.
    + by rewrite (setattr_class _ _ _ _ _ _ Hm) by auto.
  - rewrite (bool_decide_eq_false_2 _ Hget) in *.
    destruct (decide (slice_to 4 attr_name = "set_")) as [Hset|Hset].
    + rewrite (bool_decide_eq_true_2 _ Hset) in *. cbn [orb andb].
      unfold bind. rewrite (class_fields _ _ _ _ _ Hm Hf). cbn [contains ret].
      destruct (dict_mem (slice_from 4 attr_name) fields); cbn [negb].
      * by rewrite list_insert_id.
      * by rewrite (setattr_class _ _ _ _ _ _ Hm) by auto.
    + rewrite (bool_decide_eq_false_2 _ Hset). cbn [orb andb].
      by rewrite list_insert_id.
Qed.

Lemma clean_step_fields fields ns attr_name :
  clean_step fields ns attr_name !! "_fields" = ns !! "_fields".
Proof.
  cbv beta. destruct (stale fields attr_name) eqn:Hstale; [| done].
  rewrite lookup_insert_ne; [done |]. intros ->. by rewrite stale_fields_attr in Hstale.
Qed.

Lemma clean_loop (names : list string) : ∀ (h : heap) m ns fields,
  h !! m = Some (ClassObj SModel ns) →
  ns !! "_fields" = Some (VDict fields) →
  for_each names (clean_body (VRef m)) h
  = (Return (),
     <[m := ClassObj SModel (foldl (clean_step fields) ns names)]> h).
Proof.
  induction names as [|name names IH]; intros h m ns fields Hm Hf.
  - simpl. by rewrite list_insert_id.
  - assert (m < length h)%nat as Hlt by (by eapply lookup_lt_Some).
    cbn [for_each foldl]. unfold bind at 1.
    rewrite (clean_round _ _ _ _ name Hm Hf).
    rewrite (IH _ m (clean_step fields ns name) fields).
    + by rewrite list_insert_insert_eq.
    + by apply list_lookup_insert_eq.
    + by rewrite clean_step_fields.
Qed.

Lemma clean_fold_lookup fields (names : list string) : ∀ ns name,
  foldl (clean_step fields) ns names !! name
  = if stale fields name && bool_decide (name ∈ names)
    then Some VNone else ns !! name.
Proof.
  induction names as [|attr_name names IH]; intros ns name.
  - cbn [foldl]. by rewrite andb_false_r.
  - cbn [foldl]. rewrite IH.
    destruct (stale fields name) eqn:Hstale; cbn [andb].
    + destruct (decide (name ∈ names)) as [Hin|Hnin].
      * rewrite (bool_decide_eq_true_2 _ Hin).
        by rewrite bool_decide_eq_true_2 by (by right).
      * rewrite (bool_decide_eq_false_2 _ Hnin).
        destruct (decide (name = attr_name)) as [->|Hne].
        -- rewrite bool_decide_eq_true_2 by left.
           rewrite Hstale. apply lookup_insert_eq.
        -- rewrite bool_decide_eq_false_2
             by (intros [?|?]%elem_of_cons; done).
           destruct (stale fields attr_name); [| done].
           by rewrite lookup_insert_ne.
    + destruct (stale fields attr_name) eqn:Hstale'; [| done].
      rewrite lookup_insert_ne; [done |]. intros ->. congruence.
Qed.

(** X4. [clean_getters_setters] turns into [None] every attribute of the
    class named [get_...] or [set_...] whose remainder is not a declared
    field, and nothing else: every other attribute keeps its value, and no
    attribute appears or disappears. *)
Theorem clean_getters_setters_effect (h : heap) (m : loc)
    (ns : gmap string pyval) (fields : dict) :
  h !! m = Some (ClassObj SModel ns) →
  ns !! "_fields" = Some (VDict fields) →
  ∃ ns',
    clean_getters_setters (VRef m) h
    = (Return (VRef m), <[m := ClassObj SModel ns']> h) ∧
    ∀ name,
      ns' !! name
      = if stale fields name then (λ _, VNone) <$> ns !! name else ns !! name.
Proof.
  intros Hm Hf.
  set (names := remove_dups ((map_to_list ns).*1 ++ (Model_ns ++ object_ns).*1)).
  exists (foldl (clean_step fields) ns names). split.
  - unfold clean_getters_setters. unfold bind at 1, dir.
    rewrite Hm. cbn [static_ns]. fold names.
    unfold bind at 1. by rewrite (clean_loop _ _ _ _ _ Hm Hf).
  - intros name. rewrite clean_fold_lookup.
    destruct (stale fields name) eqn:Hstale; cbn [andb]; [| done].
    destruct (ns !! name) as [v|] eqn:Hname; cbn.
    + rewrite bool_decide_eq_true_2; [done |].
      apply elem_of_remove_dups, elem_of_app. left.
      apply list_elem_of_fmap. exists (name, v).
      split; [done | by apply elem_of_map_to_list].
    + rewrite bool_decide_eq_false_2; [done |].
      intros [Hown|Hbase]%elem_of_remove_dups%elem_of_app.
      * apply list_elem_of_fmap in Hown as ([k v] & -> & Hkv).
        apply elem_of_map_to_list in Hkv. simpl in Hname. congruence.
      * pose proof Model_no_accessor as Hall. rewrite Forall_forall in Hall.
        apply Hall in Hbase. unfold stale in Hstale.
        by rewrite Hbase in Hstale.
Qed.

Lemma clean_getters_setters_effect_witness :
  ∃ ns',
    clean_getters_setters (VRef 0)
      [ClassObj SModel
         (<["get_password" := VFun (impl_getter "_password")]>
            (kind_ns account_schema))]
    = (Return (VRef 0),
       <[0 := ClassObj SModel ns']>
         [ClassObj SModel
            (<["get_password" := VFun (impl_getter "_password")]>
               (kind_ns account_schema))]) ∧
    ∀ name,
      ns' !! name
      = if stale account_schema name
        then (λ _, VNone)
               <$> <["get_password" := VFun (impl_getter "_password")]>
                     (kind_ns account_schema) !! name
        else <["get_password" := VFun (impl_getter "_password")]>
               (kind_ns account_schema) !! name.
Proof.
  apply (clean_getters_setters_effect
           [ClassObj SModel
              (<["get_password" := VFun (impl_getter "_password")]>
                 (kind_ns account_schema))] 0).
  - reflexivity.
  - vm_compute. reflexivity.
Defined.

(** X5. Whatever the schema and the arguments, [model_with_fields] leaves
    every object that was in the heap as it was, also when it raises after
    the class statement; and the class it returns sits at an address that
    was free before the call. *)
Theorem model_with_fields_fresh (args : list pyval) (fields : dict)
    (h : heap) (l : loc) (o : object) :
  h !! l = Some o →
  (model_with_fields args fields h).2 !! l = Some o ∧
  ∀ K, (model_with_fields args fields h).1 = Return K →
       K = VRef (length h) ∧ h !! length h = None.
Proof.
  intros Hl. destruct (model_with_fields_frame args fields h) as [Hext Hret].
  split; [by apply Hext |].
  intros K HK. split; [by apply Hret |].
  by apply lookup_ge_None.
Qed.

Lemma model_with_fields_fresh_witness :
  (model_with_fields [] [("text", VClass SStr); ("sent", VInt 0)]
     account_heap).2 !! 0
  = Some (ClassObj SModel (kind_ns account_schema)) ∧
  ∀ K, (model_with_fields [] [("text", VClass SStr); ("sent", VInt 0)]
          account_heap).1 = Return K →
       K = VRef (length account_heap) ∧
       account_heap !! length account_heap = None.
Proof.
  apply (model_with_fields_fresh [] [("text", VClass SStr); ("sent", VInt 0)]
           account_heap 0).
  vm_compute. reflexivity.
Defined.

(** X6. A compiled kind is a type for the test of [add_getters_setters]:
    a schema may use it as the type of a field. *)
Theorem kind_is_a_field_type (fields : dict) (h0 h1 : heap) (K : pyval)
    (name : string) :
  model_with_fields [] fields h0 = (Return K, h1) →
  name ∉ _reserved_fields →
  ∃ K' h2, model_with_fields [] [(name, K)] h1 = (Return K', h2).
Proof.
  intros Hrun Hname. apply model_with_fields_inv in Hrun as (_ & -> & ->).
  eexists _, _. apply model_with_fields_ok.
  - by repeat constructor.
  - repeat constructor. unfold is_type. simpl.
    rewrite lookup_app_l by (rewrite length_app; simpl; lia).
    by rewrite lookup_app_r, Nat.sub_diag by done.
Qed.

Lemma kind_is_a_field_type_witness :
  ∃ K' h2,
    model_with_fields [] [("owner", VRef 0)] account_heap = (Return K', h2).
Proof.
  apply (kind_is_a_field_type account_schema [] account_heap (VRef 0) "owner").
  - vm_compute. reflexivity.
  - apply (bool_decide_unpack _). vm_compute. exact I.
Defined.

(** ** Instances and their slots *)











(** ** The checks of [model_from_proto] *)

Lemma issubclass_heap v c (h : heap) : (issubclass v c h).2 = h.
Proof. destruct v; try done. simpl. by destruct (h !! l) as [[]|]. Qed.

(** X13. [model_from_proto] turns down a class that does not derive from
    [Interface], a compiled kind for one, with the [ValueError] of its
    first check, and creates nothing. *)
Theorem model_from_proto_not_interface (h : heap) (l : loc)
    (base : static_class) (ns : gmap string pyval) :
  h !! l = Some (ClassObj base ns) →
  base ≠ SInterface →
  model_from_proto (VRef l) h
  = (Raise (ValueError (not_interface_subclass (VRef l))), h).
Proof.
  intros Hl Hbase. unfold model_from_proto.
  unfold bind at 1, issubclass. rewrite Hl.
  by destruct base.
Qed.

Lemma model_from_proto_not_interface_witness :
  model_from_proto (VRef 0) account_heap
  = (Raise (ValueError (not_interface_subclass (VRef 0))), account_heap).
Proof.
  apply (model_from_proto_not_interface account_heap 0 SModel
           (kind_ns account_schema)).
  - vm_compute. reflexivity.
  - discriminate.
Defined.



Lemma issubclass_outcome v c (h : heap) :
  (∃ b, issubclass v c h = (Return b, h)) ∨
  issubclass v c h
  = (Raise (TypeError "issubclass() arg 1 must be a class"), h) ∨
  issubclass v c h = (Unsupported, h).
Proof.
  destruct v; simpl; eauto.
  destruct (h !! l) as [[]|]; eauto.
Qed.

(** X15. Whatever it is given, [model_from_proto] returns no class: every
    run ends in an exception or outside the fragment, and leaves the heap
    as it was.  And its second check never fires: the [ValueError] for a
    missing [_fields_enum] is not among its outcomes, since a class that
    passed the first check finds the attribute on [Interface]. *)
Theorem model_from_proto_never_returns (iface : pyval) (h : heap) :
  ∃ outcome,
    model_from_proto iface h = (outcome, h) ∧
    (∀ K, outcome ≠ Return K) ∧
    outcome ≠ Raise (ValueError (no_fields_enum iface)).
Proof.
  assert (∀ fields_enum,
            (model_from_fields <- getattr (VClass SModel) "model_from_fields" ;;
             members <- members_of fields_enum ;;
             Model.call model_from_fields []
               (dict_of_pairs
                  ((λ member, (member.2.1, member.2.2)) <$> members))) h
            = (Raise (AttributeError "model_from_fields"), h)) as Htail
    by done.
  assert (∀ outcome : outcome pyval,
            (∀ K, outcome ≠ Return K) →
            outcome ≠ Raise (ValueError (no_fields_enum iface)) →
            ∃ outcome',
              (outcome, h) = (outcome', h) ∧
              (∀ K, outcome' ≠ Return K) ∧
              outcome' ≠ Raise (ValueError (no_fields_enum iface))) as Hend
    by (intros outcome ? ?; by exists outcome).
  unfold model_from_proto. unfold bind at 1.
  destruct (issubclass_outcome iface SInterface h)
    as [[[|] Hsub] | [Hsub | Hsub]]; rewrite Hsub; cbn [negb];
    [| by apply Hend | by apply Hend | by apply Hend].
  assert (∃ v, lookup_attr h iface "_fields_enum" = Some (Some v))
    as [fields_enum Hlook].
  { destruct iface as [| | | | | |c| | | |l]; try done.
    - destruct c; try done. by eexists.
    - simpl in Hsub. unfold lookup_attr, class_attr.
      destruct (h !! l) as [[base ns|]|]; try done.
      destruct base; try done.
      destruct (ns !! "_fields_enum"); by eexists. }
  unfold bind at 1, hasattr. rewrite Hlook. cbn [negb].
  unfold bind at 1, getattr. rewrite Hlook.
  unfold bind at 1. pose proof (type_of_heap fields_enum h) as Ht.
  destruct (type_of fields_enum h) as [[t| |] h0] eqn:Htype;
    simpl in Ht; subst h0; [| | by apply Hend].
  2: { destruct fields_enum; try done. simpl in Htype.
       by destruct (h !! l) as [[]|]. }
  unfold bind at 1.
  destruct (bool_decide (t ≠ TStatic SEnum)
            && bool_decide (t ≠ TStatic SEnumMeta)); cbn [negb];
    [by apply Hend |].
  unfold bind at 1.
  destruct (issubclass_outcome fields_enum SEnum h)
    as [[[|] He] | [He | He]]; rewrite He; cbn [negb ret];
    [rewrite Htail; by apply Hend | | by apply Hend | by apply Hend].
  unfold bind at 1.
  destruct (issubclass_outcome fields_enum SEnumMeta h)
    as [[[|] Hm] | [Hm | Hm]]; rewrite Hm; cbn [negb ret];
    [rewrite Htail; by apply Hend | by apply Hend
     | by apply Hend | by apply Hend].
Qed.

(** * The report of delivered messages *)

Import Events.

Lemma str_app_assoc (a b c : string) : (a +:+ b) +:+ c = a +:+ b +:+ c.
Proof. induction a as [|x a IH]; [done |]. fstring. by rewrite IH. Qed.

Lemma drop_last_newline (s : string) : drop_last (s +:+ newline) = s.
Proof.
  induction s as [|c s IH]; [done |].
  rewrite app_String. cbn [drop_last].
  destruct (s +:+ newline) eqn:Hs.
  - by destruct s.
  - by rewrite <- IH.
Qed.

Section report.
Context {Sender Text : Type} `{!EqDecision Sender}.
Implicit Types (messages : list (Sender * Text)) (sender : Sender)
  (grouped : list (Sender * list Text)).

Local Abbreviation group_step :=
  (λ (grouped_messages : list (Sender * list Text)) (message : Sender * Text),
     let sender := message.1 in
     if decide (sender ∈ grouped_messages.*1)
     then append_message grouped_messages sender message.2
     else grouped_messages ++ [(sender, [message.2])]).

(** What a sender sent, in the order of the response. *)
Local Abbreviation texts_of sender messages :=
  ((filter (λ message : Sender * Text, message.1 = sender) messages).*2).

Lemma group_messages_snoc messages (message : Sender * Text) :
  group_messages (messages ++ [message])
  = group_step (group_messages messages) message.
Proof. unfold group_messages. by rewrite foldl_app. Qed.

Lemma keys_append_message grouped sender (text : Text) :
  (append_message grouped sender text).*1 = grouped.*1.
Proof.
  induction grouped as [|[s texts] grouped IH]; [done |].
  cbn [append_message]. destruct (decide (sender = s)); rewrite !fmap_cons;
    [done | by rewrite IH].
Qed.

Lemma grouped_get_Some_key sender grouped :
  is_Some (grouped_get sender grouped) ↔ sender ∈ grouped.*1.
Proof.
  induction grouped as [|[s texts] grouped IH].
  - split; [by intros [? ?] | intros H; inversion H].
  - cbn [grouped_get]. rewrite fmap_cons, elem_of_cons. cbn [fst].
    destruct (decide (sender = s)) as [->|Hne].
    + split; [by left | eauto].
    + rewrite IH. tauto.
Qed.

Lemma grouped_get_append grouped sender sender' (text : Text) :
  grouped_get sender (append_message grouped sender' text)
  = if decide (sender = sender')
    then (λ texts, texts ++ [text]) <$> grouped_get sender grouped
    else grouped_get sender grouped.
Proof.
  induction grouped as [|[s texts] grouped IH]; cbn [append_message grouped_get].
  - by case_decide.
  - destruct (decide (sender' = s)) as [->|Hne]; cbn [grouped_get];
      rewrite ?IH; repeat case_decide; subst; done.
Qed.

Lemma grouped_get_new grouped sender sender' (texts : list Text) :
  grouped_get sender (grouped ++ [(sender', texts)])
  = match grouped_get sender grouped with
    | Some found => Some found
    | None => if decide (sender = sender') then Some texts else None
    end.
Proof.
  induction grouped as [|[s found] grouped IH]; [done |].
  rewrite <- app_comm_cons. cbn [grouped_get].
  destruct (decide (sender = s)); [done | apply IH].
Qed.

Lemma texts_of_snoc sender messages (message : Sender * Text) :
  texts_of sender (messages ++ [message])
  = texts_of sender messages
    ++ (if decide (message.1 = sender) then [message.2] else []).
Proof.
  rewrite filter_app, fmap_app. f_equal.
  rewrite (filter_cons (λ message : Sender * Text, message.1 = sender)).
  by destruct (decide (message.1 = sender)).
Qed.

Lemma texts_of_absent sender messages :
  sender ∉ messages.*1 → texts_of sender messages = [].
Proof.
  induction messages as [|[s text] messages IH]; [done |].
  rewrite fmap_cons. cbn [fst]. intros [Hne Hnin]%not_elem_of_cons.
  rewrite (filter_cons (λ message : Sender * Text, message.1 = sender)).
  rewrite decide_False by (cbn [fst]; congruence). by apply IH.
Qed.

(** X16. The grouping splits the messages by sender and loses nothing: a
    sender of the response is bound to the texts of its messages, all of
    them and in the order of the response, and no one else is a key. *)
Theorem group_messages_by_sender messages sender :
  grouped_get sender (group_messages messages)
  = if decide (sender ∈ messages.*1)
    then Some (texts_of sender messages)
    else None.
Proof.
  revert sender.
  induction messages as [|[s text] messages IH] using rev_ind; intros sender.
  - done.
  - assert (s ∈ (group_messages messages).*1 ↔ s ∈ messages.*1) as Hkey.
    { rewrite <- grouped_get_Some_key, IH.
      destruct (decide (s ∈ messages.*1)); [by split; eauto |].
      split; [by intros [? ?] | done]. }
    assert (∀ x, x ∈ (messages ++ [(s, text)]).*1 ↔ x ∈ messages.*1 ∨ x = s)
      as Hmem.
    { intros x. rewrite fmap_app, elem_of_app. cbn.
      by rewrite list_elem_of_singleton. }
    rewrite group_messages_snoc, texts_of_snoc. cbn [fst snd].
    destruct (decide (s ∈ (group_messages messages).*1)) as [Hin|Hnin].
    + apply Hkey in Hin. rewrite grouped_get_append, IH.
      repeat case_decide; subst; cbn; rewrite ?app_nil_r; try done;
        exfalso; rewrite ?Hmem in *; tauto.
    + rewrite Hkey in Hnin. rewrite grouped_get_new, IH.
      repeat case_decide; subst; cbn; rewrite ?app_nil_r; try done;
        try (rewrite texts_of_absent by done; done);
        exfalso; rewrite ?Hmem in *; tauto.
Qed.

(** X17. The senders are listed once each, in the order of their first
    message. *)
Theorem group_messages_senders messages :
  (group_messages messages).*1
  = reverse (remove_dups (reverse messages.*1)) ∧
  NoDup (group_messages messages).*1.
Proof.
  assert ((group_messages messages).*1
          = reverse (remove_dups (reverse messages.*1))) as Hkeys.
  { induction messages as [|[s text] messages IH] using rev_ind; [done |].
    rewrite group_messages_snoc. cbn [fst snd]. cbv zeta.
    assert (reverse (remove_dups (reverse (messages ++ [(s, text)]).*1))
            = if decide (s ∈ reverse messages.*1)
              then reverse (remove_dups (reverse messages.*1))
              else reverse (remove_dups (reverse messages.*1)) ++ [s]) as ->.
    { rewrite fmap_app, reverse_app. cbn [fmap list_fmap fst reverse app].
      change (reverse [s]) with [s]. cbn [app remove_dups].
      unfold decide, decide_rel.
      destruct (list_elem_of_dec s (reverse messages.*1));
        [done | by rewrite reverse_cons]. }
    assert (s ∈ (group_messages messages).*1 ↔ s ∈ reverse messages.*1)
      as Hkey by (by rewrite IH, elem_of_reverse, elem_of_remove_dups).
    destruct (decide (s ∈ (group_messages messages).*1)) as [Hin|Hnin].
    - rewrite keys_append_message, IH.
      by rewrite decide_True by (by apply Hkey).
    - rewrite fmap_app, IH. cbn [fmap list_fmap fst].
      by rewrite decide_False by (by rewrite <- Hkey). }
  split; [done |]. rewrite Hkeys.
  rewrite reverse_Permutation. apply NoDup_remove_dups.
Qed.

Context (str_sender : Sender → string) (str_text : Text → string).

Local Abbreviation format_texts :=
  (λ (formatted_messages : string) (message : Text),
     formatted_messages +:+ str_text message +:+ newline).

Local Abbreviation format_entry :=
  (λ (formatted_messages : string) (entry : Sender * list Text),
     foldl format_texts
       (formatted_messages +:+ "> " +:+ str_sender entry.1 +:+ newline)
       entry.2).

Lemma format_texts_ends (texts : list Text) : ∀ line : string,
  ∃ body, foldl format_texts (line +:+ newline) texts = body +:+ newline.
Proof.
  induction texts as [|text texts IH]; intros line; [by exists line |].
  cbn [foldl]. rewrite str_app_assoc.
  rewrite <- (str_app_assoc line newline (str_text text +:+ newline)).
  rewrite <- (str_app_assoc (line +:+ newline) (str_text text) newline).
  apply IH.
Qed.

Lemma format_entries_end (grouped : list (Sender * list Text)) :
  ∀ line : string,
  ∃ body, foldl format_entry (line +:+ newline) grouped = body +:+ newline.
Proof.
  induction grouped as [|[sender texts] grouped IH]; intros line;
    [by exists line |].
  cbn [foldl fst snd].
  rewrite <- (str_app_assoc "> " (str_sender sender) newline).
  rewrite <- (str_app_assoc (line +:+ newline) ("> " +:+ str_sender sender)
                newline).
  destruct (format_texts_ends texts
              ((line +:+ newline) +:+ "> " +:+ str_sender sender))
    as [body ->].
  apply IH.
Qed.

(** X18. Dropping the last character of the formatted groups drops the
    newline that ends them and nothing of a message: when the response
    holds a message, the text printed, followed by a newline, is the
    formatted groups; when it holds none, the text is empty. *)
Theorem format_messages_drops_newline messages :
  format_messages str_sender str_text [] = "" ∧
  (messages ≠ [] →
   format_messages str_sender str_text messages +:+ newline
   = format_grouped str_sender str_text (group_messages messages)).
Proof.
  split; [done |]. intros Hmessages. unfold format_messages.
  assert (group_messages messages ≠ []) as Hgrouped.
  { destruct messages as [|message messages _] using rev_ind; [done |].
    rewrite group_messages_snoc. cbv zeta.
    destruct (decide (message.1 ∈ (group_messages messages).*1)) as [Hin|_].
    - intros Hnil.
      assert ((append_message (group_messages messages) message.1 message.2).*1
              = []) as Hkeys by (by rewrite Hnil).
      rewrite keys_append_message in Hkeys. rewrite Hkeys in Hin.
      inversion Hin.
    - by destruct (group_messages messages). }
  unfold format_grouped.
  destruct (group_messages messages) as [|[sender texts] grouped]; [done |].
  cbn [foldl fst snd].
  rewrite <- (str_app_assoc "> " (str_sender sender) newline).
  rewrite <- (str_app_assoc "" ("> " +:+ str_sender sender) newline).
  destruct (format_texts_ends texts ("" +:+ "> " +:+ str_sender sender))
    as [body ->].
  destruct (format_entries_end grouped body) as [body' ->].
  by rewrite drop_last_newline.
Qed.

End report.

Lemma format_messages_drops_newline_witness :
  format_messages id id [] = "" ∧
  ([("bob", "hi"); ("eve", "hello"); ("bob", "bye")] ≠ [] →
   format_messages id id [("bob", "hi"); ("eve", "hello"); ("bob", "bye")]
     +:+ newline
   = format_grouped id id
       (group_messages [("bob", "hi"); ("eve", "hello"); ("bob", "bye")])).
Proof.
  apply (format_messages_drops_newline id id
           [("bob", "hi"); ("eve", "hello"); ("bob", "bye")]).
Defined.
